(** * url-text-fetcher: readable-text extraction and link collection

    A shallow embedding of [src/url_text_fetcher/url_text_fetcher_mcp.py].

    The module has three functions of interest:
    - [_clean_body] parses markup with BeautifulSoup, decomposes boilerplate
      elements, scopes to [<body>], joins the stripped strings and
      normalises whitespace;
    - [fetch_url_text] downloads a page, cleans it and slices the result to
      [max_chars] characters;
    - [fetch_page_links] downloads a page and lists the [href] of every
      [<a>] element that has one.

    The HTTP client ([requests]) and the markup parser (the [BeautifulSoup]
    constructor over Python's [html.parser]) are third-party libraries.
    They enter the development as section variables; the tree operations
    the source calls on the parsed document ([find_all], [decompose],
    [.body], [.stripped_strings], item access) and the string operations
    ([str.strip], [str.split], [str.join], slicing) are written out. *)

From Stdlib Require Import ZArith Lia.
From Stdlib Require Import String Ascii.
From stdpp Require Import base option list gmap.

Open Scope Z_scope.

(** ** Python strings *)

(** A Python [str] is a sequence of Unicode code points; [len] and slicing
    count code points. *)
Definition char := Z.
Definition pystr := list char.

Definition SPACE : char := 32.

(** [str.isspace] on one character, which is also the separator test of
    [str.split()] and [str.strip()] without arguments. *)
Definition isspace (c : char) : bool :=
  ((9 <=? c) && (c <=? 13))            (* \t \n \v \f \r *)
  || ((28 <=? c) && (c <=? 32))        (* FS GS RS US and the space *)
  || (c =? 133) || (c =? 160)          (* NEL, no-break space *)
  || (c =? 5760)                       (* Ogham space mark *)
  || ((8192 <=? c) && (c <=? 8202))    (* en quad .. hair space *)
  || (c =? 8232) || (c =? 8233)        (* line and paragraph separators *)
  || (c =? 8239) || (c =? 8287) || (c =? 12288).

(** [len(s)] *)
Definition len (s : pystr) : Z := Z.of_nat (length s).

Fixpoint lstrip (s : pystr) : pystr :=
  match s with
  | [] => []
  | c :: s' => if isspace c then lstrip s' else s
  end.

Definition rstrip (s : pystr) : pystr := reverse (lstrip (reverse s)).

(** [s.strip()] *)
Definition strip (s : pystr) : pystr := rstrip (lstrip s).

Definition flush (word : pystr) (rest : list pystr) : list pystr :=
  match word with
  | [] => rest
  | _ :: _ => word :: rest
  end.

(** The scanning loop of [str.split()]: [word] holds the characters of the
    word being read; a whitespace character closes it. *)
Fixpoint split_from (word : pystr) (s : pystr) : list pystr :=
  match s with
  | [] => flush word []
  | c :: s' =>
      if isspace c then flush word (split_from [] s')
      else split_from (word ++ [c]) s'
  end.

(** [s.split()] *)
Definition split (s : pystr) : list pystr := split_from [] s.

(** [sep.join(parts)] *)
Fixpoint join (sep : pystr) (parts : list pystr) : pystr :=
  match parts with
  | [] => []
  | [w] => w
  | w :: ws => w ++ sep ++ join sep ws
  end.

(** [s[:stop]] with Python's treatment of a negative or oversized stop. *)
Definition slice_to (s : pystr) (stop : Z) : pystr :=
  let n := len s in
  let stop' := if stop <? 0 then Z.max (n + stop) 0 else Z.min stop n in
  take (Z.to_nat stop') s.

(** Line 66 of the source: [" ".join(cleaned.split())]. *)
Definition normalize_whitespace (s : pystr) : pystr := join [SPACE] (split s).

(** ** The parsed document *)

(** The classes of string objects that a BeautifulSoup tree holds.  All are
    subclasses of [NavigableString]; the HTML tree builder gives the string
    children of [<script>], [<style>], [<template>], [<rt>] and [<rp>]
    a class of their own. *)
Inductive string_class :=
| NavigableString | CData | Comment | Declaration | Doctype
| ProcessingInstruction | Script | Stylesheet | TemplateString
| RubyTextString | RubyParenthesisString.

#[global] Instance string_class_eq_dec : EqDecision string_class.
Proof. solve_decision. Defined.

(** A page element: a string object or a [Tag] with its name, its attribute
    dictionary and its [contents].  The attributes the source reads ([href])
    are plain strings. *)
Inductive node :=
| Str (cls : string_class) (text : pystr)
| Tag (name : pystr) (attrs : gmap pystr pystr) (contents : list node).

(** The [BeautifulSoup] object is the root tag named [[document]]; it is
    represented by its contents.  Methods of [Tag] that look at the
    descendants of the receiver take the receiver's contents. *)
Definition soup := list node.

Definition tag_contents (t : node) : list node :=
  match t with
  | Str _ _ => []
  | Tag _ _ cs => cs
  end.

(** A [Tag] object handed out by a search is named by the position it has in
    the tree: the child indices from the root down to it. *)
Definition path := list nat.

Definition under (i : nat) (e : path * node) : path * node := (i :: e.1, e.2).

(** [Tag.descendants]: every page element below the receiver, in document
    order, each with its position. *)
Fixpoint descendants_of (t : node) : list (path * node) :=
  match t with
  | Str _ _ => []
  | Tag _ _ cs =>
      (fix walk (i : nat) (l : list node) : list (path * node) :=
         match l with
         | [] => []
         | c :: l' =>
             ([i], c) :: (under i <$> descendants_of c) ++ walk (S i) l'
         end) 0%nat cs
  end.

Fixpoint descendants_from (i : nat) (l : list node) : list (path * node) :=
  match l with
  | [] => []
  | c :: l' =>
      ([i], c) :: (under i <$> descendants_of c) ++ descendants_from (S i) l'
  end.

Definition descendants (l : list node) : list (path * node) :=
  descendants_from 0 l.

(** [find_all]: the descendants accepted by the matcher, in document order,
    gathered into a list before the caller sees any of them. *)
Definition find_all (m : node → bool) (l : list node) : list (path * node) :=
  filter (λ e, m e.2 = true) (descendants l).

(** [find]: the first result of [find_all], or [None]. *)
Definition find (m : node → bool) (l : list node) : option node :=
  snd <$> head (find_all m l).

(** Matcher for [find_all([name1, name2, ...])]. *)
Definition name_in (names : list pystr) (t : node) : bool :=
  match t with
  | Str _ _ => false
  | Tag n _ _ => bool_decide (n ∈ names)
  end.

(** Matcher for [find_all(name, attr=True)]: the attribute must be present. *)
Definition name_with_attr (name key : pystr) (t : node) : bool :=
  match t with
  | Str _ _ => false
  | Tag n a _ => bool_decide (n = name) && bool_decide (is_Some (a !! key))
  end.

(** [PageElement.extract]: unlink the element at position [p] from the
    contents of its parent. *)
Fixpoint extract (p : path) (l : list node) : list node :=
  match p with
  | [] => l
  | i :: p' =>
      match p' with
      | [] => delete i l
      | _ :: _ =>
          alter (λ t, match t with
                      | Str _ _ => t
                      | Tag n a cs => Tag n a (extract p' cs)
                      end) i l
      end
  end.

(** Where the element that sat at position [q] sits once the element at
    position [p] has been extracted: nowhere if it was that element or lay
    inside it, one place to the left if it followed it under the same
    parent, and where it was otherwise. *)
Fixpoint relocate (p q : path) : option path :=
  match p, q with
  | [], _ => Some q
  | _ :: _, [] => Some q
  | i :: p', j :: q' =>
      match p' with
      | [] =>
          if decide (j < i)%nat then Some q
          else if decide (j = i) then None
          else Some (pred j :: q')
      | _ :: _ =>
          if decide (j = i) then
            match q' with
            | [] => Some q
            | _ :: _ => cons i <$> relocate p' q'
            end
          else Some q
      end
  end.

(** [for element in found: element.decompose()].

    [found] holds the objects by the position they had when [find_all] ran;
    [whereis] maps such an object to its present position, or to [None]
    once it has been destroyed.  [decompose] extracts the element and
    destroys it with everything below it; on an element that was destroyed
    along with an ancestor it changes nothing. *)
Fixpoint decompose_each (found : list path) (whereis : path → option path)
    (l : list node) : list node :=
  match found with
  | [] => l
  | r :: found' =>
      match whereis r with
      | None => decompose_each found' whereis l
      | Some p =>
          decompose_each found' (λ q, whereis q ≫= relocate p) (extract p l)
      end
  end.

(** The strings a tag without a special string container counts as its
    text. *)
Definition MAIN_CONTENT_STRING_TYPES : list string_class :=
  [NavigableString; CData].

(** The body of the loop in [_all_strings(strip=True)]: a descendant that
    is not a string of an interesting class is skipped; the others are
    stripped and skipped when nothing is left. *)
Definition stripped (t : node) : option pystr :=
  match t with
  | Tag _ _ _ => None
  | Str cls s =>
      if bool_decide (cls ∈ MAIN_CONTENT_STRING_TYPES) then
        let s' := strip s in
        if len s' =? 0 then None else Some s'
      else None
  end.

(** [Tag.stripped_strings] *)
Definition stripped_strings (l : list node) : list pystr :=
  omap (λ e : path * node, stripped e.2) (descendants l).

(** ** Exceptions *)

Inductive exn :=
| RequestException      (* raised by [requests.get] or [raise_for_status] *)
| ParserRejectedMarkup  (* raised by the [BeautifulSoup] constructor *)
| KeyError
| TypeError.

Inductive result (A : Type) :=
| Ok (a : A)
| Raise (e : exn).
Arguments Ok {A} a.
Arguments Raise {A} e.

#[global] Instance result_ret : MRet result := λ A a, Ok a.
#[global] Instance result_fmap : FMap result := λ A B f r,
  match r with
  | Ok a => Ok (f a)
  | Raise e => Raise e
  end.
#[global] Instance result_bind : MBind result := λ A B f r,
  match r with
  | Ok a => f a
  | Raise e => Raise e
  end.

(** ** The source functions *)

(** An ASCII literal as a Python string. *)
Definition py (s : string) : pystr :=
  (λ a, Z.of_N (N_of_ascii a)) <$> list_ascii_of_string s.

(** The list given to [find_all] on line 56. *)
Definition BOILERPLATE : list pystr :=
  [py "script"; py "style"; py "noscript"; py "header"; py "footer"; py "nav"].

(** [tag[key]] *)
Definition getitem (t : node) (key : pystr) : result pystr :=
  match t with
  | Str _ _ => Raise TypeError
  | Tag _ a _ =>
      match a !! key with
      | Some v => Ok v
      | None => Raise KeyError
      end
  end.

(** Lines 56 and 57: every element [find_all] reported is decomposed. *)
Definition drop_boilerplate (sp : soup) : soup :=
  let found := find_all (name_in BOILERPLATE) sp in
  decompose_each found.*1 Some sp.

(** Line 60: [soup.body or soup].  [soup.body] is [soup.find("body")], and
    a [Tag] is truthy whatever it contains.  The result is the contents of
    the tag the strings are read from. *)
Definition body_or_soup (sp : soup) : list node :=
  match find (name_in [py "body"]) sp with
  | Some body => tag_contents body
  | None => sp
  end.

(** Lines 56 to 66 of [_clean_body], on the parsed document. *)
Definition clean_soup (sp : soup) : pystr :=
  let sp' := drop_boilerplate sp in
  let body := body_or_soup sp' in
  let cleaned := join [SPACE] (stripped_strings body) in
  join [SPACE] (split cleaned).

(** Line 103, on the parsed document. *)
Definition soup_links (sp : soup) : result (list pystr) :=
  mapM (λ a : path * node, getitem a.2 (py "href"))
       (find_all (name_with_attr (py "a") (py "href")) sp).

(** The validated arguments of both tools; [max_chars] is a
    [PositiveInt]. *)
Record UrlArg := { url : pystr; max_chars : Z }.

Definition MAX_CHARS : Z := 40000.

Section Tools.
(** [requests.get(url, timeout=10)], [raise_for_status()] and [.text]. *)
Variable requests_get : pystr → result pystr.
(** [BeautifulSoup(html, "html.parser")]. *)
Variable BeautifulSoup : pystr → result soup.

Definition _clean_body (html : pystr) : result pystr :=
  sp ← BeautifulSoup html;
  mret (clean_soup sp).

(** Lines 84 to 89 of [fetch_url_text]: what happens to the downloaded
    markup.  The specification calls this operation [extract_text]. *)
Definition extract_text (html : pystr) (budget : Z) : result pystr :=
  cleaned ← _clean_body html;
  mret (slice_to cleaned budget).

Definition fetch_url_text (args : UrlArg) : result pystr :=
  html ← requests_get (url args);
  extract_text html (max_chars args).

(** Lines 102 to 104 of [fetch_page_links]: what happens to the downloaded
    markup.  The specification calls this operation [collect_links]. *)
Definition collect_links (html : pystr) : result (list pystr) :=
  sp ← BeautifulSoup html;
  soup_links sp.

Definition fetch_page_links (args : UrlArg) : result (list pystr) :=
  html ← requests_get (url args);
  collect_links html.
End Tools.

(** ** The specification's description of the two operations

    These definitions follow the words of the specification; the theorems
    below compare them with the source functions above. *)

(** An element with one of the six boilerplate names. *)
Definition is_boilerplate (t : node) : bool := name_in BOILERPLATE t.

(** Step 2: the tree without any subtree rooted at a boilerplate element. *)
Fixpoint prune_node (t : node) : node :=
  match t with
  | Str _ _ => t
  | Tag n a cs =>
      Tag n a (omap (λ c, if is_boilerplate c then None
                          else Some (prune_node c)) cs)
  end.

Definition prune (l : list node) : list node :=
  omap (λ c, if is_boilerplate c then None else Some (prune_node c)) l.

(** The body elements below a node, the node included, in document order. *)
Fixpoint body_elements_of (t : node) : list node :=
  match t with
  | Str _ _ => []
  | Tag n _ cs =>
      (if decide (n = py "body") then [t] else []) ++ (cs ≫= body_elements_of)
  end.

(** Step 3: the contents of the body element if there is one, else those of
    the document root. *)
Definition scope_root (l : soup) : list node :=
  match head (l ≫= body_elements_of) with
  | Some body => tag_contents body
  | None => l
  end.

(** An ordinary text node: a plain string or a CDATA section, as opposed
    to a comment, a declaration, a doctype, a processing instruction or
    the string of a script, style, template, [rt] or [rp] element. *)
Definition is_text_node (cls : string_class) : bool :=
  match cls with
  | NavigableString | CData => true
  | _ => false
  end.

(** The text runs of the ordinary text nodes below a node, in document
    order. *)
Fixpoint text_runs_of (t : node) : list pystr :=
  match t with
  | Str cls s => if is_text_node cls then [s] else []
  | Tag _ _ cs => cs ≫= text_runs_of
  end.

Definition text_runs (l : list node) : list pystr := l ≫= text_runs_of.

(** Step 4, continued: each run trimmed, the empty ones left out. *)
Definition fragments (l : list node) : list pystr :=
  filter (λ s, s ≠ []) (strip <$> text_runs l).

(** Step 6, first half: every run of whitespace becomes one space.
    [in_run] tells that the previous character was whitespace. *)
Fixpoint collapse_ws (in_run : bool) (s : pystr) : pystr :=
  match s with
  | [] => []
  | c :: s' =>
      if isspace c then
        if in_run then collapse_ws true s' else SPACE :: collapse_ws true s'
      else c :: collapse_ws false s'
  end.

(** Steps 2 to 6 together. *)
Definition readable_text (l : soup) : pystr :=
  strip (collapse_ws false (join [SPACE] (fragments (scope_root (prune l))))).

(** Section 4.2: one entry per anchor that has an [href], in document
    order, over the whole tree. *)
Fixpoint links_of (t : node) : list pystr :=
  match t with
  | Str _ _ => []
  | Tag n a cs =>
      (if decide (n = py "a") then option_list (a !! py "href") else [])
      ++ (cs ≫= links_of)
  end.

Definition hyperlinks (l : soup) : list pystr := l ≫= links_of.

(** Two documents that agree outside their boilerplate elements: such an
    element may be present on one side only, and where both sides have an
    element its contents may differ in the same way. *)
Inductive same_outside_boilerplate : list node → list node → Prop :=
| sob_nil : same_outside_boilerplate [] []
| sob_left t l l' :
    is_boilerplate t = true → same_outside_boilerplate l l' →
    same_outside_boilerplate (t :: l) l'
| sob_right t l l' :
    is_boilerplate t = true → same_outside_boilerplate l l' →
    same_outside_boilerplate l (t :: l')
| sob_str cls s l l' :
    same_outside_boilerplate l l' →
    same_outside_boilerplate (Str cls s :: l) (Str cls s :: l')
| sob_tag n a cs cs' l l' :
    same_outside_boilerplate cs cs' → same_outside_boilerplate l l' →
    same_outside_boilerplate (Tag n a cs :: l) (Tag n a cs' :: l').

(** The document with the attributes of every element other than an anchor
    rewritten by [g]. *)
Fixpoint reattribute_node (g : pystr → gmap pystr pystr → gmap pystr pystr)
    (t : node) : node :=
  match t with
  | Str _ _ => t
  | Tag n a cs =>
      Tag n (if decide (n = py "a") then a else g n a)
          (reattribute_node g <$> cs)
  end.

Definition reattribute g (l : soup) : soup := reattribute_node g <$> l.

(** The shape of a normalised string and of its prefixes: no whitespace
    other than the space, no two whitespace characters in a row, none in
    front. *)
Definition single_spaced (s : pystr) : Prop :=
  (∀ i c d, s !! i = Some c → s !! S i = Some d →
            ¬ (isspace c = true ∧ isspace d = true))
  ∧ (∀ c, c ∈ s → isspace c = true → c = SPACE)
  ∧ (∀ c, head s = Some c → isspace c = false).

(** Text that the extraction can see: a text run that is not blank, outside
    every boilerplate element. *)
Definition no_visible_text (l : soup) : Prop :=
  Forall (λ s, strip s = []) (text_runs (prune l)).

Definition no_body_element (l : soup) : Prop := l ≫= body_elements_of = [].

(** ** Auxiliary notions used in the proofs *)

Definition word (w : pystr) : Prop :=
  w ≠ [] ∧ Forall (λ c, isspace c = false) w.

(** Checker for [single_spaced]; [prev] tells that a whitespace character
    may not come next. *)
Fixpoint spaced_ok (prev : bool) (s : pystr) : bool :=
  match s with
  | [] => true
  | c :: s' =>
      if isspace c then negb prev && (c =? SPACE) && spaced_ok true s'
      else spaced_ok false s'
  end.

Definition is_nil {A} (l : list A) : bool :=
  match l with [] => true | _ => false end.

(** What a node contributes ([f]) followed by what the nodes below it
    contribute, in document order. *)
Fixpoint gather {B} (f : node → list B) (t : node) : list B :=
  f t ++ match t with
         | Str _ _ => []
         | Tag _ _ cs => cs ≫= gather f
         end.

(** A node without what lies below it. *)
Definition shallow (t : node) : node :=
  match t with
  | Str _ _ => t
  | Tag n a _ => Tag n a []
  end.

Definition shallow_entry (e : path * node) : path * node := (e.1, shallow e.2).

(** A position among the children counted from [i] instead of [0]. *)
Definition offset (i : nat) (p : path) : path :=
  match p with
  | [] => []
  | j :: p' => (i + j)%nat :: p'
  end.

Definition bump (e : path * node) : path * node := (offset 1 e.1, e.2).

Definition relocate_entry (p : path) (e : path * node) : option (path * node) :=
  (λ q, (q, e.2)) <$> relocate p e.1.

(** What one node adds to the collected links. *)
Definition href_of_anchor (t : node) : list pystr :=
  match t with
  | Str _ _ => []
  | Tag n a _ =>
      if decide (n = py "a") then option_list (a !! py "href") else []
  end.

(** ** Sample pages

    A client and a parser that answer from a table, to run the functions
    on concrete pages.  Each tree is the one [html.parser] builds for the
    markup next to it. *)

Definition text (s : string) : node := Str NavigableString (py s).
Definition elem (name : string) (cs : list node) : node := Tag (py name) ∅ cs.
Definition elem_href (name href : string) (cs : list node) : node :=
  Tag (py name) {[ py "href" := py href ]} cs.

Definition article_markup : pystr :=
  py "<html><head><title>T</title><script>var x</script></head><body><header><nav><a href='/home'>Home</a></nav></header><p>  Hello <b>big</b>
 world </p><!--c--><footer><a href='/about'>About</a><a>top</a></footer></body></html>".

Definition article_soup : soup :=
  [elem "html"
     [elem "head" [elem "title" [text "T"];
                   elem "script" [Str Script (py "var x")]];
      elem "body"
        [elem "header" [elem "nav" [elem_href "a" "/home" [text "Home"]]];
         elem "p" [text "  Hello "; elem "b" [text "big"]; text "
 world "];
         Str Comment (py "c");
         elem "footer" [elem_href "a" "/about" [text "About"];
                        elem "a" [text "top"]]]]].

(** The same article without its header and script and with another
    footer. *)
Definition bare_markup : pystr :=
  py "<html><head><title>T</title></head><body><p>  Hello <b>big</b>
 world </p><!--c--><footer>gone</footer></body></html>".

Definition bare_soup : soup :=
  [elem "html"
     [elem "head" [elem "title" [text "T"]];
      elem "body"
        [elem "p" [text "  Hello "; elem "b" [text "big"]; text "
 world "];
         Str Comment (py "c");
         elem "footer" [text "gone"]]]].

(** Unclosed tags, no body element. *)
Definition unclosed_markup : pystr := py "<p>Hello <b>world".

Definition unclosed_soup : soup :=
  [elem "p" [text "Hello "; elem "b" [text "world"]]].

(** Nothing to read and no body element. *)
Definition blank_markup : pystr := py "<div> <script>x</script></div>".

Definition blank_soup : soup :=
  [elem "div" [text " "; elem "script" [Str Script (py "x")]]].

(** Two pages that differ in the [href] of their [link] and [area]
    elements only. *)
Definition links_markup : pystr :=
  py "<link><a href='/x'>x</a><area><a href='/x'>again</a>".

Definition links_soup : soup :=
  [elem "link" []; elem_href "a" "/x" [text "x"]; elem "area" [];
   elem_href "a" "/x" [text "again"]].

Definition links_markup' : pystr :=
  py "<link href='s.css'><a href='/x'>x</a><area href='/map'><a href='/x'>again</a>".

Definition add_hrefs (n : pystr) (a : gmap pystr pystr) : gmap pystr pystr :=
  if decide (n = py "link") then <[py "href" := py "s.css"]> a
  else if decide (n = py "area") then <[py "href" := py "/map"]> a
  else a.

Definition sample_pages : list (pystr * soup) :=
  [(article_markup, article_soup); (bare_markup, bare_soup);
   (unclosed_markup, unclosed_soup); (blank_markup, blank_soup);
   (py "", []); (links_markup, links_soup);
   (links_markup', reattribute add_hrefs links_soup)].

Definition sample_site : list (pystr * pystr) :=
  [(py "http://example.org/article", article_markup);
   (py "http://example.org/unclosed", unclosed_markup)].

Fixpoint table_lookup {V} (table : list (pystr * V)) (k : pystr) : option V :=
  match table with
  | [] => None
  | (k', v) :: table' =>
      if decide (k' = k) then Some v else table_lookup table' k
  end.

Definition sample_parser (html : pystr) : result soup :=
  match table_lookup sample_pages html with
  | Some sp => Ok sp
  | None => Raise ParserRejectedMarkup
  end.

Definition sample_get (address : pystr) : result pystr :=
  match table_lookup sample_site address with
  | Some html => Ok html
  | None => Raise RequestException
  end.

(** ** Argument validation

    [UrlArg] is a pydantic model (lines 17 to 35).  [url] is an [HttpUrl]:
    pydantic's check and normalisation of the address, whose string form
    the tools pass to [requests.get], is a parameter.  [max_chars] is a
    [PositiveInt] with default [MAX_CHARS]: an integer that is given must
    be greater than zero, one that is left out is replaced by the default.
    The outcome is the validated model or the names of the rejected
    fields. *)
Inductive validation :=
| Valid (args : UrlArg)
| ValidationError (fields : list pystr).

Definition validate_max_chars (given : option Z) : option Z :=
  match given with
  | None => Some MAX_CHARS
  | Some n => if 0 <? n then Some n else None
  end.

Definition UrlArg_validate (HttpUrl : pystr → option pystr)
    (given_url : pystr) (given_max_chars : option Z) : validation :=
  match HttpUrl given_url, validate_max_chars given_max_chars with
  | Some u, Some n => Valid {| url := u; max_chars := n |}
  | None, Some _ => ValidationError [py "url"]
  | Some _, None => ValidationError [py "max_chars"]
  | None, None => ValidationError [py "url"; py "max_chars"]
  end.

(** ** Documents without the strings that are not text *)

(** The tree without its comments, declarations, doctypes, processing
    instructions and the strings of script, style, template and ruby
    containers. *)
Definition keep_text (c : node) (rec : node → node) : option node :=
  match c with
  | Str cls _ => if is_text_node cls then Some c else None
  | Tag _ _ _ => Some (rec c)
  end.

Fixpoint text_only_node (t : node) : node :=
  match t with
  | Str _ _ => t
  | Tag n a cs => Tag n a (omap (λ c, keep_text c text_only_node) cs)
  end.

Definition text_only (l : list node) : list node :=
  omap (λ c, keep_text c text_only_node) l.

(** The document with every element renamed and re-attributed by [f]. *)
Fixpoint relabel_node
    (f : pystr → gmap pystr pystr → pystr * gmap pystr pystr)
    (t : node) : node :=
  match t with
  | Str _ _ => t
  | Tag n a cs => Tag (f n a).1 (f n a).2 (relabel_node f <$> cs)
  end.

Definition relabel f (l : list node) : list node := relabel_node f <$> l.

(** Hide every element and turn each [p] into a [div]. *)
Definition hide_all (n : pystr) (a : gmap pystr pystr)
    : pystr * gmap pystr pystr :=
  (if decide (n = py "p") then py "div" else n, <[py "hidden" := py ""]> a).

(** A stand-in for pydantic's [HttpUrl]: the address must start with
    [http://] or [https://]; it is passed on as it is. *)
Definition sample_HttpUrl (address : pystr) : option pystr :=
  if bool_decide (take 7 address = py "http://")
     || bool_decide (take 8 address = py "https://")
  then Some address else None.

(** ** The specification's text extraction with its own primitives

    Whitespace, trimming, collapsing and joining as the specification
    words them, independent of the Python string methods above. *)

(** The whitespace characters: tab to carriage return, the four
    separators, the space, NEL, the no-break space and the Unicode
    spaces. *)
Definition WHITESPACE : list char :=
  [9; 10; 11; 12; 13; 28; 29; 30; 31; 32; 133; 160; 5760;
   8192; 8193; 8194; 8195; 8196; 8197; 8198; 8199; 8200; 8201; 8202;
   8232; 8233; 8239; 8287; 12288].

Definition whitespace (c : char) : bool := bool_decide (c ∈ WHITESPACE).

Fixpoint trim_start (s : pystr) : pystr :=
  match s with
  | [] => []
  | c :: s' => if whitespace c then trim_start s' else s
  end.

(** Leading and trailing whitespace removed. *)
Definition trim (s : pystr) : pystr :=
  reverse (trim_start (reverse (trim_start s))).

(** Every run of whitespace replaced by one space. *)
Fixpoint squeeze (in_run : bool) (s : pystr) : pystr :=
  match s with
  | [] => []
  | c :: s' =>
      if whitespace c then
        if in_run then squeeze true s' else 32 :: squeeze true s'
      else c :: squeeze false s'
  end.

(** The fragments with one space between neighbours. *)
Definition spaced (parts : list pystr) : pystr :=
  match parts with
  | [] => []
  | w :: ws => w ++ concat ((λ v, 32 :: v) <$> ws)
  end.

(** Steps 2 to 6 over a given notion of text run. *)
Definition described_text (runs : list node → list pystr) (l : soup)
    : pystr :=
  trim (squeeze false
          (spaced (filter (λ s, s ≠ [])
                          (trim <$> runs (scope_root (prune l)))))).

(** Every string that is the text of some element: all but comments,
    declarations, doctypes and processing instructions. *)
Definition is_element_text (cls : string_class) : bool :=
  match cls with
  | Comment | Declaration | Doctype | ProcessingInstruction => false
  | _ => true
  end.

Fixpoint every_text_run_of (t : node) : list pystr :=
  match t with
  | Str cls s => if is_element_text cls then [s] else []
  | Tag _ _ cs => cs ≫= every_text_run_of
  end.

(** The text when every remaining text run is collected. *)
Definition all_remaining_text (l : soup) : pystr :=
  described_text (λ l, l ≫= every_text_run_of) l.

(** The text when the runs of the ordinary text nodes are collected. *)
Definition ordinary_text (l : soup) : pystr := described_text text_runs l.

(** ** The body element in its surroundings *)

(** [body_at l a cs]: the first body element of [l] that lies outside
    every boilerplate element has attributes [a] and contents [cs].  It is
    a node of [l] or lies at any depth below elements that are neither
    boilerplate nor a body; what stands before it, once pruned, holds no
    body. *)
Inductive body_at : list node → gmap pystr pystr → list node → Prop :=
| body_here pre a cs post :
    no_body_element (prune pre) →
    body_at (pre ++ Tag (py "body") a cs :: post) a cs
| body_below pre n a' inner post a cs :
    no_body_element (prune pre) →
    n ≠ py "body" → n ∉ BOILERPLATE →
    body_at inner a cs →
    body_at (pre ++ Tag n a' inner :: post) a cs.

(** ** More pages *)

(** A ruby annotation.  The string of the [rt] element is a
    [RubyTextString]. *)
Definition ruby_markup : pystr :=
  py "<body><ruby>kanji<rt>kan</rt></ruby></body>".

Definition ruby_soup : soup :=
  [elem "body"
     [elem "ruby" [text "kanji";
                   elem "rt" [Str RubyTextString (py "kan")]]]].

(** Ordinary markup followed by a marked section with an unknown keyword.
    [_markupbase.parse_marked_section] raises [AssertionError] on it, which
    the tree builder turns into [ParserRejectedMarkup]. *)
Definition stray_section_markup : pystr := py "<p>ok</p><![foo]>".

(** The first bytes of a JPEG file read as Latin-1: no tag, no entity.
    The parser makes one string of it. *)
Definition blob_markup : pystr := [255; 216; 255; 224; 1; 2; 3].

(** The article with every element hidden and its [p] turned into a
    [div]. *)
Definition hidden_markup : pystr :=
  py "<html hidden><head hidden><title hidden>T</title><script hidden>var x</script></head><body hidden><header hidden><nav hidden><a href='/home' hidden>Home</a></nav></header><div hidden>  Hello <b hidden>big</b>
 world </div><!--c--><footer hidden><a href='/about' hidden>About</a><a hidden>top</a></footer></body></html>".

Definition more_pages : list (pystr * result soup) :=
  [(ruby_markup, Ok ruby_soup);
   (stray_section_markup, Raise ParserRejectedMarkup);
   (blob_markup, Ok [Str NavigableString blob_markup]);
   (hidden_markup, Ok (relabel hide_all article_soup))].

Definition page_parser (html : pystr) : result soup :=
  match table_lookup more_pages html with
  | Some r => r
  | None => sample_parser html
  end.

Definition more_site : list (pystr * pystr) :=
  [(py "http://example.org/stray", stray_section_markup);
   (py "http://example.org/photo.jpg", blob_markup)].

Definition page_get (address : pystr) : result pystr :=
  match table_lookup more_site address with
  | Some html => Ok html
  | None => sample_get address
  end.

(** ** Failure as the specification describes it *)

(** Markup that is no HTML at all: it holds no [<], so nothing in it is a
    tag, a comment or a declaration. *)
Definition non_html_blob (html : pystr) : bool :=
  negb (bool_decide (60 ∈ html)).

(** Both operations fail exactly on such markup. *)
Definition fails_only_on_blobs (requests_get : pystr → result pystr)
    (BeautifulSoup : pystr → result soup) : Prop :=
  ∀ args html,
    requests_get (url args) = Ok html →
    ((∃ e, fetch_url_text requests_get BeautifulSoup args = Raise e)
     ↔ non_html_blob html = true)
    ∧ ((∃ e, fetch_page_links requests_get BeautifulSoup args = Raise e)
       ↔ non_html_blob html = true).

(** * Properties *)

(** ** Strings *)

Lemma isspace_SPACE : isspace SPACE = true.
Proof. reflexivity. Qed.

Lemma len_nonneg s : 0 <= len s.
Proof. unfold len. lia. Qed.

Lemma len_zero s : (len s =? 0) = is_nil s.
Proof. destruct s; reflexivity. Qed.

Lemma join_cons2 sep w v ws :
  join sep (w :: v :: ws) = w ++ sep ++ join sep (v :: ws).
Proof. reflexivity. Qed.

Lemma join_cons_nonempty sep w ws :
  ws ≠ [] → join sep (w :: ws) = w ++ sep ++ join sep ws.
Proof. destruct ws; [congruence | reflexivity]. Qed.

Lemma flush_word w l : w ≠ [] → flush w l = w :: l.
Proof. destruct w; [congruence | reflexivity]. Qed.

Section SplitFacts.
Implicit Types (s u w : pystr) (ws : list pystr).

Lemma split_from_words w s :
  Forall (λ c, isspace c = false) w → Forall word (split_from w s).
Proof.
  revert w. induction s as [|c s IH]; intros w Hw; simpl.
  - destruct w; simpl; [constructor|].
    apply Forall_cons; split; [by split | constructor].
  - destruct (isspace c) eqn:Hc.
    + destruct w; simpl; [by apply IH|].
      constructor; [by split | by apply IH].
    + apply IH. apply Forall_app; split; [done | by repeat constructor].
Qed.

Lemma split_words s : Forall word (split s).
Proof. by apply split_from_words. Qed.

Lemma split_from_letters w u s :
  Forall (λ c, isspace c = false) u →
  split_from w (u ++ s) = split_from (w ++ u) s.
Proof.
  intros Hu. revert w. induction Hu as [|c u Hc _ IH]; intros w; simpl.
  - by rewrite app_nil_r.
  - rewrite Hc, IH. by rewrite <-app_assoc.
Qed.

Lemma split_from_blanks w u :
  Forall (λ c, isspace c = true) u → split_from w u = flush w [].
Proof.
  intros Hu. revert w. induction Hu as [|c u Hc _ IH]; intros w; simpl.
  - done.
  - rewrite Hc, IH. by destruct w.
Qed.

Lemma split_from_trailing w s u :
  Forall (λ c, isspace c = true) u →
  split_from w (s ++ u) = split_from w s.
Proof.
  intros Hu. revert w. induction s as [|c s IH]; intros w; simpl.
  - by apply split_from_blanks.
  - by rewrite !IH.
Qed.

Lemma split_join ws : Forall word ws → split (join [SPACE] ws) = ws.
Proof.
  unfold split. induction 1 as [|w ws [Hne Hw] Hws IH]; [done|].
  destruct ws as [|v ws].
  - simpl. rewrite <-(app_nil_r w) at 1.
    rewrite split_from_letters by done. simpl. by apply flush_word.
  - rewrite join_cons2, split_from_letters by done.
    change ([SPACE] ++ ?r) with (SPACE :: r).
    cbn [split_from app]. rewrite isspace_SPACE, IH. by apply flush_word.
Qed.

Lemma split_lstrip s : split (lstrip s) = split s.
Proof.
  unfold split. induction s as [|c s IH]; simpl; [done|].
  destruct (isspace c) eqn:Hc; simpl; [done | by rewrite Hc].
Qed.

Lemma lstrip_blanks s :
  ∃ u, Forall (λ c, isspace c = true) u ∧ s = u ++ lstrip s.
Proof.
  induction s as [|c s (u & Hu & IH)]; simpl.
  - by exists [].
  - destruct (isspace c) eqn:Hc.
    + exists (c :: u). split; [by constructor|]. simpl. by f_equal.
    + by exists [].
Qed.

Lemma rstrip_blanks s :
  ∃ u, Forall (λ c, isspace c = true) u ∧ s = rstrip s ++ u.
Proof.
  unfold rstrip. destruct (lstrip_blanks (reverse s)) as (u & Hu & Hs).
  exists (reverse u). split.
  - by apply Forall_reverse.
  - rewrite <-reverse_app, <-Hs. by rewrite reverse_involutive.
Qed.

Lemma split_rstrip s : split (rstrip s) = split s.
Proof.
  destruct (rstrip_blanks s) as (u & Hu & Hs).
  rewrite Hs at 2. unfold split. by rewrite split_from_trailing.
Qed.

Lemma split_strip s : split (strip s) = split s.
Proof. unfold strip. by rewrite split_rstrip, split_lstrip. Qed.

Lemma split_from_collapse b w s :
  (b = true → w = []) →
  split_from w (collapse_ws b s) = split_from w s.
Proof.
  revert b w. induction s as [|c s IH]; intros b w Hb; simpl; [done|].
  destruct (isspace c) eqn:Hc.
  - destruct b; simpl.
    + rewrite (Hb eq_refl). simpl. by apply IH.
    + f_equal. by apply IH.
  - simpl. rewrite Hc. by apply IH.
Qed.

Lemma split_collapse s : split (collapse_ws false s) = split s.
Proof. by apply split_from_collapse. Qed.
End SplitFacts.

Section NormalForm.
Implicit Types (s u w x : pystr) (b : bool).

Lemma spaced_ok_prefix b x u :
  spaced_ok b (x ++ u) = true → spaced_ok b x = true.
Proof.
  revert b. induction x as [|c x IH]; intros b; simpl; [done|].
  destruct (isspace c); [|by apply IH].
  rewrite !andb_true_iff. intros [Hc Hx]. split; [done | by eapply IH].
Qed.

Lemma spaced_ok_take b x n :
  spaced_ok b x = true → spaced_ok b (take n x) = true.
Proof.
  intros Hx. apply spaced_ok_prefix with (drop n x). by rewrite take_drop.
Qed.

Lemma spaced_ok_collapse b s : spaced_ok b (collapse_ws b s) = true.
Proof.
  revert b. induction s as [|c s IH]; intros b; simpl; [done|].
  destruct (isspace c) eqn:Hc.
  - destruct b; [apply IH|]. simpl. apply IH.
  - simpl. rewrite Hc. apply IH.
Qed.

Lemma spaced_ok_lstrip b x :
  spaced_ok b x = true → spaced_ok true (lstrip x) = true.
Proof.
  revert b. induction x as [|c x IH]; intros b; simpl; [done|].
  destruct (isspace c) eqn:Hc.
  - rewrite !andb_true_iff. intros [_ Hx]. by eapply IH.
  - simpl. by rewrite Hc.
Qed.

Lemma spaced_ok_rstrip b x :
  spaced_ok b x = true → spaced_ok b (rstrip x) = true.
Proof.
  destruct (rstrip_blanks x) as (u & _ & Hx). rewrite Hx at 1.
  apply spaced_ok_prefix.
Qed.

Lemma head_lstrip x c : head (lstrip x) = Some c → isspace c = false.
Proof.
  induction x as [|d x IH]; simpl; [done|].
  destruct (isspace d) eqn:Hd; [done|]. simpl. by intros [= <-].
Qed.

Lemma last_rstrip x c : last (rstrip x) = Some c → isspace c = false.
Proof. unfold rstrip. rewrite last_reverse. apply head_lstrip. Qed.

(** A single-spaced string that does not end in whitespace is already
    the join of its words. *)
Lemma join_split_from w x :
  Forall (λ c, isspace c = false) w →
  spaced_ok (is_nil w) x = true →
  (∀ c, last x = Some c → isspace c = false) →
  join [SPACE] (split_from w x) = w ++ x.
Proof.
  revert w. induction x as [|c x IH]; intros w Hw Hx Hlast; simpl.
  - rewrite app_nil_r. by destruct w.
  - simpl in Hx. destruct (isspace c) eqn:Hc.
    + apply andb_true_iff in Hx as [Hx Hx'].
      apply andb_true_iff in Hx as [Hnil HSP].
      apply Z.eqb_eq in HSP. subst c.
      destruct w as [|a w]; [done|]. simpl flush.
      assert (x ≠ []) as Hne.
      { intros ->. by specialize (Hlast SPACE eq_refl). }
      assert (join [SPACE] (split_from [] x) = x) as Hj.
      { apply (IH []); [constructor | done |].
        intros d Hd. apply Hlast. destruct x; [done|].
        by rewrite last_cons, Hd. }
      rewrite join_cons_nonempty, Hj; [done|].
      intros E. rewrite E in Hj. simpl in Hj. congruence.
    + rewrite IH, <-app_assoc; [done | | |].
      * apply Forall_app. split; [done | by repeat constructor].
      * by destruct w.
      * intros d Hd. apply Hlast. destruct x; [done|].
    by rewrite last_cons, Hd.
Qed.

Lemma strip_collapse_normal s :
  spaced_ok true (strip (collapse_ws false s)) = true
  ∧ ∀ c, last (strip (collapse_ws false s)) = Some c → isspace c = false.
Proof.
  split.
  - unfold strip. apply spaced_ok_rstrip.
    apply spaced_ok_lstrip with false, spaced_ok_collapse.
  - apply last_rstrip.
Qed.

(** Line 66 computes what the specification's step 6 describes. *)
Lemma normalize_whitespace_collapse s :
  normalize_whitespace s = strip (collapse_ws false s).
Proof.
  unfold normalize_whitespace.
  rewrite <-split_collapse, <-split_strip.
  destruct (strip_collapse_normal s) as [Hok Hlast].
  by apply (join_split_from []).
Qed.

Lemma spaced_ok_normalize s : spaced_ok true (normalize_whitespace s) = true.
Proof. rewrite normalize_whitespace_collapse. apply strip_collapse_normal. Qed.

Lemma spaced_ok_sound b x :
  spaced_ok b x = true →
  (∀ i c d, x !! i = Some c → x !! S i = Some d →
            ¬ (isspace c = true ∧ isspace d = true))
  ∧ (∀ c, c ∈ x → isspace c = true → c = SPACE)
  ∧ (b = true → ∀ c, head x = Some c → isspace c = false).
Proof.
  revert b. induction x as [|c x IH]; intros b Hx.
  - split_and!; [done | | done]. by intros c ?%elem_of_nil.
  - simpl in Hx. destruct (isspace c) eqn:Hc.
    + apply andb_true_iff in Hx as [Hx Hx'].
      apply andb_true_iff in Hx as [Hb HSP]. apply Z.eqb_eq in HSP.
      destruct (IH _ Hx') as (IH1 & IH2 & IH3). split_and!.
      * intros [|i] c1 d; simpl.
        -- intros [= <-] Hd [_ Hsp]. destruct x as [|e x]; [done|].
           simpl in Hd. injection Hd as ->.
           by rewrite (IH3 eq_refl d eq_refl) in Hsp.
        -- apply IH1.
      * intros e [->|He]%elem_of_cons; [done | by apply IH2].
      * intros ->. done.
    + destruct (IH _ Hx) as (IH1 & IH2 & IH3). split_and!.
      * intros [|i] c1 d; simpl.
        -- intros [= <-] _ [Hsp _]. congruence.
        -- apply IH1.
      * intros e [->|He]%elem_of_cons; [congruence | by apply IH2].
      * intros _ e [= <-]. done.
Qed.

Lemma spaced_ok_single_spaced x : spaced_ok true x = true → single_spaced x.
Proof.
  intros (H1 & H2 & H3)%spaced_ok_sound.
split_and!; [done | done | by apply H3].
Qed.
End NormalForm.

(** ** Walking the tree *)

Lemma node_ind' (P : node → Prop) :
  (∀ cls s, P (Str cls s)) →
  (∀ n a cs, Forall P cs → P (Tag n a cs)) →
  ∀ t, P t.
Proof.
  intros HStr HTag. fix IH 1. intros [cls s|n a cs].
  - apply HStr.
  - apply HTag.
    induction cs as [|c cs IHcs]; constructor; [apply IH | apply IHcs].
Qed.

Lemma descendants_of_contents t :
  descendants_of t = descendants (tag_contents t).
Proof. by destruct t. Qed.

Lemma descendants_from_cons i c l :
  descendants_from i (c :: l) =
  ([i], c) :: (under i <$> descendants (tag_contents c))
           ++ descendants_from (S i) l.
Proof. simpl. by rewrite descendants_of_contents. Qed.

Lemma descendants_from_S i l :
  descendants_from (S i) l = bump <$> descendants_from i l.
Proof.
  revert i. induction l as [|c l IH]; intros i; [done|].
  rewrite !descendants_from_cons, fmap_cons, fmap_app, IH.
  f_equal. f_equal. rewrite <-list_fmap_compose. by apply list_fmap_ext.
Qed.

Lemma descendants_from_heads i l :
  Forall (λ e : path * node, ∃ j q, e.1 = j :: q ∧ (i ≤ j)%nat)
         (descendants_from i l).
Proof.
  revert i. induction l as [|c l IH]; intros i; [constructor|].
  rewrite descendants_from_cons. constructor; [by exists i, []|].
  apply Forall_app. split.
  - apply Forall_fmap, Forall_true. intros [q t]. by exists i, q.
  - eapply Forall_impl; [apply (IH (S i))|].
    intros e (j & q & ? & ?). exists j, q. split; [done | lia].
Qed.

Lemma descendants_nonempty_path l p t : (p, t) ∈ descendants l → p ≠ [].
Proof.
  intros He.
  pose proof (descendants_from_heads 0 l) as H.
  rewrite Forall_forall in H. destruct (H _ He) as (j & q & Hp & _).
  simpl in Hp. by subst p.
Qed.

(** The nodes in document order, whatever their positions. *)
Lemma gather_descendants {B} (f : node → list B) i l :
  (descendants_from i l).*2 ≫= f = l ≫= gather f.
Proof.
  revert i. induction l as [|c l IHl]; intros i; [done|].
  assert (∀ t, (descendants_of t).*2 ≫= f
               = match t with Str _ _ => [] | Tag _ _ cs => cs ≫= gather f end)
    as Hnode.
  { clear. induction t as [cls s|n a cs IH] using node_ind'; [done|].
    change (descendants_of (Tag n a cs)) with (descendants_from 0 cs).
    generalize 0%nat. induction IH as [|c cs Hc _ IHcs]; intros i; [done|].
    simpl. rewrite fmap_app, bind_app, <-list_fmap_compose.
    change (snd ∘ under i) with (snd : path * node → node).
    rewrite Hc, IHcs. destruct c; simpl; by rewrite <-?app_assoc. }
  simpl. rewrite fmap_app, bind_app, <-list_fmap_compose.
  change (snd ∘ under i) with (snd : path * node → node).
  rewrite Hnode, IHl. destruct c; simpl; by rewrite <-?app_assoc.
Qed.

Lemma filter_snd_bind (m : node → bool) (D : list (path * node)) :
  (filter (λ e, m e.2 = true) D).*2 = D.*2 ≫= (λ t, if m t then [t] else []).
Proof.
  induction D as [|[q t] D IH]; [done|].
  rewrite filter_cons, fmap_cons, bind_cons. simpl.
  destruct (m t); case_decide; try done. simpl. by f_equal.
Qed.

Lemma omap_snd_bind {B} (g : node → option B) (D : list (path * node)) :
  omap (λ e, g e.2) D = D.*2 ≫= (λ t, option_list (g t)).
Proof.
  induction D as [|[q t] D IH]; [done|].
  rewrite fmap_cons, bind_cons. simpl. destruct (g t); simpl; by f_equal.
Qed.

Lemma find_all_nodes m l :
  (find_all m l).*2 = l ≫= gather (λ t, if m t then [t] else []).
Proof. unfold find_all. rewrite filter_snd_bind. apply gather_descendants. Qed.

Lemma find_head m l :
  find m l = head (l ≫= gather (λ t, if m t then [t] else [])).
Proof.
  unfold find. rewrite <-find_all_nodes. by destruct (find_all m l).
Qed.

Lemma bind_forest_ext {B} (F G : node → list B) l :
  Forall (λ t, F t = G t) l → l ≫= F = l ≫= G.
Proof. induction 1 as [|t l Ht _ IH]; [done|]. by rewrite !bind_cons, Ht, IH. Qed.

(** ** The source's traversals against the specification's *)

Lemma body_elements_gather t :
  body_elements_of t
  = gather (λ t, if name_in [py "body"] t then [t] else []) t.
Proof.
  induction t as [cls s|n a cs IH] using node_ind'; [done|].
  simpl. f_equal.
  - unfold name_in. case_decide as Hn.
    + rewrite bool_decide_eq_true_2; [done|]. subst n. apply list_elem_of_here.
    + rewrite bool_decide_eq_false_2; [done|].
      by intros ->%list_elem_of_singleton.
  - by apply bind_forest_ext.
Qed.

Lemma body_or_soup_scope_root l : body_or_soup l = scope_root l.
Proof.
  unfold body_or_soup, scope_root. rewrite find_head.
  rewrite (bind_forest_ext body_elements_of
             (gather (λ t, if name_in [py "body"] t then [t] else [])) l); [done|].
  apply Forall_true, body_elements_gather.
Qed.

Lemma interesting_text_node cls :
  bool_decide (cls ∈ MAIN_CONTENT_STRING_TYPES) = is_text_node cls.
Proof. by destruct cls. Qed.

Lemma fragments_bind l :
  fragments l = l ≫= (λ t, filter (λ s, s ≠ []) (strip <$> text_runs_of t)).
Proof.
  unfold fragments, text_runs. induction l as [|t l IH]; [done|].
  rewrite !bind_cons, fmap_app, filter_app. f_equal. apply IH.
Qed.

Lemma fragments_gather t :
  filter (λ s, s ≠ []) (strip <$> text_runs_of t)
  = gather (λ t, option_list (stripped t)) t.
Proof.
  induction t as [cls s|n a cs IH] using node_ind'.
  - simpl. rewrite interesting_text_node, app_nil_r.
    destruct (is_text_node cls); [|done].
    simpl. rewrite len_zero, filter_cons, filter_nil.
    destruct (strip s); simpl; try case_decide; done.
  - simpl. transitivity (fragments cs); [done|].
    rewrite fragments_bind. by apply bind_forest_ext.
Qed.

Lemma stripped_strings_fragments l : stripped_strings l = fragments l.
Proof.
  unfold stripped_strings. rewrite omap_snd_bind. unfold descendants. rewrite gather_descendants.
  rewrite fragments_bind. symmetry. apply bind_forest_ext, Forall_true.
  apply fragments_gather.
Qed.

Lemma links_of_gather t : links_of t = gather href_of_anchor t.
Proof.
  induction t as [cls s|n a cs IH] using node_ind'; [done|].
  simpl. f_equal. by apply bind_forest_ext.
Qed.

Lemma getitem_found (D : list (path * node)) :
  mapM (λ a : path * node, getitem a.2 (py "href"))
       (filter (λ e, name_with_attr (py "a") (py "href") e.2 = true) D)
  = Ok (D.*2 ≫= href_of_anchor).
Proof.
  induction D as [|[q t] D IH]; [done|].
  rewrite fmap_cons, bind_cons. cbn [snd].
  destruct (name_with_attr (py "a") (py "href") t) eqn:Hm.
  - rewrite filter_cons_True by done.
    destruct t as [cls s|n a cs]; [done|]. simpl in Hm.
    apply andb_true_iff in Hm as [Hn%bool_decide_eq_true Ha%bool_decide_eq_true].
    destruct Ha as [v Hv]. subst n.
    cbn [mapM getitem snd]. rewrite Hv, IH.
    unfold href_of_anchor. rewrite decide_True by done. by rewrite Hv.
  - rewrite filter_cons_False by (simpl; congruence).
    rewrite IH. f_equal.
    destruct t as [cls s|n a cs]; [done|]. simpl in *.
    case_decide as Hn; [|done]. subst n.
    rewrite bool_decide_eq_true_2 in Hm by done.
    destruct (a !! py "href") as [v|] eqn:Hv; [|done].
    by rewrite bool_decide_eq_true_2 in Hm by eauto.
Qed.

Lemma soup_links_hyperlinks sp : soup_links sp = Ok (hyperlinks sp).
Proof.
  unfold soup_links, find_all. rewrite getitem_found. f_equal.
  unfold descendants, hyperlinks. rewrite gather_descendants.
  symmetry. apply bind_forest_ext, Forall_true, links_of_gather.
Qed.

(** ** Extraction and the positions of the other elements *)

Section Relocate.
Implicit Types (p q : path) (i j k : nat) (l : list node).

Lemma relocate_before k p j q :
  (j < k)%nat → relocate (k :: p) (j :: q) = Some (j :: q).
Proof.
  intros Hj. simpl. destruct p.
  - by rewrite decide_True.
  - rewrite decide_False; [done | lia].
Qed.

Lemma relocate_inside k q : relocate [k] (k :: q) = None.
Proof.
  simpl. rewrite decide_False by lia. by rewrite decide_True.
Qed.

Lemma relocate_after k j q :
  (k < j)%nat → relocate [k] (j :: q) = Some (pred j :: q).
Proof.
  intros Hj. simpl. rewrite decide_False by lia. by rewrite decide_False by lia.
Qed.

Lemma relocate_ancestor k p : p ≠ [] → relocate (k :: p) [k] = Some [k].
Proof. intros Hp. simpl. destruct p; [done|]. by rewrite decide_True. Qed.

Lemma relocate_below k p q :
  p ≠ [] → q ≠ [] → relocate (k :: p) (k :: q) = cons k <$> relocate p q.
Proof.
  intros Hp Hq. cbn [relocate]. destruct p; [done|].
  rewrite decide_True by done. by destruct q.
Qed.

Lemma relocate_elsewhere k p j q :
  p ≠ [] → j ≠ k → relocate (k :: p) (j :: q) = Some (j :: q).
Proof.
  intros Hp Hj. cbn [relocate]. destruct p; [done|]. by rewrite decide_False.
Qed.

Lemma relocate_self p : p ≠ [] → relocate p p = None.
Proof.
  induction p as [|k p IH]; [done|]. intros _.
  destruct p as [|k' p]; [apply relocate_inside|].
  rewrite relocate_below by done. by rewrite IH.
Qed.

Lemma extract_nil p : extract p [] = [].
Proof. destruct p as [|[|k] [|k' p]]; reflexivity. Qed.

Lemma extract_S k p c l : extract (S k :: p) (c :: l) = c :: extract (k :: p) l.
Proof. by destruct p. Qed.

Lemma offset_0 p : offset 0 p = p.
Proof. by destruct p. Qed.

Lemma omap_all_Some {A B} (g : A → option B) (h : A → B) (X : list A) :
  Forall (λ e, g e = Some (h e)) X → omap g X = h <$> X.
Proof. induction 1 as [|e X He _ IH]; [done|]. csimpl. by rewrite He, IH. Qed.

Lemma omap_all_None {A B} (g : A → option B) (X : list A) :
  Forall (λ e, g e = None) X → omap g X = [].
Proof. induction 1 as [|e X He _ IH]; [done|]. csimpl. by rewrite He, IH. Qed.

Lemma omap_all_id {A} (g : A → option A) (X : list A) :
  Forall (λ e, g e = Some e) X → omap g X = X.
Proof. intros H. rewrite (omap_all_Some g id) by done. apply list_fmap_id. Qed.

(** The elements that come later under the same parent: all of them are
    behind position [i]. *)
Lemma later_entries i l :
  Forall (λ e : path * node, ∃ j q, e.1 = j :: q ∧ (i < j)%nat)
         (shallow_entry <$> descendants_from (S i) l).
Proof.
  apply Forall_fmap. eapply Forall_impl; [apply descendants_from_heads|].
  intros [q t] (j & q' & ? & ?). exists j, q'. split; [done | lia].
Qed.

(** The elements below child [i]. *)
Lemma child_entries i l :
  Forall (λ e : path * node, ∃ q, e.1 = i :: q ∧ q ≠ [])
         (shallow_entry <$> (under i <$> descendants l)).
Proof.
  rewrite <-list_fmap_compose. apply Forall_fmap, Forall_forall.
  intros [q t] He. exists q. split; [done|].
  by eapply descendants_nonempty_path.
Qed.

Lemma shallow_under i (X : list (path * node)) :
  shallow_entry <$> (under i <$> X) = under i <$> (shallow_entry <$> X).
Proof. rewrite <-!list_fmap_compose. by apply list_fmap_ext. Qed.

Lemma shallow_alter p t :
  shallow (match t with
           | Str _ _ => t
           | Tag n a cs => Tag n a (extract p cs)
           end) = shallow t.
Proof. by destruct t. Qed.

Lemma contents_alter p t :
  tag_contents (match t with
                | Str _ _ => t
                | Tag n a cs => Tag n a (extract p cs)
                end) = extract p (tag_contents t).
Proof. destruct t; simpl; [by rewrite extract_nil | done]. Qed.
End Relocate.

Section DescendantsAfterExtract.
Implicit Types (p q : path) (i j k : nat) (l : list node).

Lemma shallow_entry_pair q t : shallow_entry (q, t) = (q, shallow t).
Proof. reflexivity. Qed.

Lemma relocate_entry_pair p q t :
  relocate_entry p (q, t) = (λ q', (q', t)) <$> relocate p q.
Proof. reflexivity. Qed.

Lemma omap_cons' {A B} (g : A → option B) (x : A) (X : list A) :
  omap g (x :: X) = option_list (g x) ++ omap g X.
Proof. csimpl. by destruct (g x). Qed.

Lemma shift_back i l :
  omap (relocate_entry [i]) (shallow_entry <$> descendants_from (S i) l)
  = shallow_entry <$> descendants_from i l.
Proof.
  rewrite descendants_from_S.
  induction (descendants_from_heads i l) as [|[q t] X (j & q' & Hq & Hj) _ IH];
    [done|].
  rewrite !fmap_cons, omap_cons', IH. simpl in Hq. subst q.
  unfold bump. cbn [fst snd offset].
  rewrite shallow_entry_pair, relocate_entry_pair.
  by rewrite relocate_after by lia.
Qed.

Lemma relocate_under i p (Y : list (path * node)) :
  p ≠ [] → Forall (λ e : path * node, e.1 ≠ []) Y →
  omap (relocate_entry (i :: p)) (under i <$> Y)
  = under i <$> omap (relocate_entry p) Y.
Proof.
  intros Hp. induction 1 as [|[q t] Y Hq _ IH]; [done|].
  rewrite fmap_cons, !omap_cons', fmap_app, IH. f_equal.
  unfold under. cbn [fst snd] in *. rewrite !relocate_entry_pair.
  rewrite relocate_below by done. by destruct (relocate p q).
Qed.

Lemma shallow_paths_nonempty l :
  Forall (λ e : path * node, e.1 ≠ []) (shallow_entry <$> descendants l).
Proof.
  apply Forall_fmap, Forall_forall. intros [q t] He. simpl.
  by eapply descendants_nonempty_path.
Qed.

(** What [find_all] would see after an extraction, from what it saw
    before. *)
Lemma descendants_extract p l i :
  shallow_entry <$> descendants_from i (extract p l)
  = omap (relocate_entry (offset i p))
         (shallow_entry <$> descendants_from i l).
Proof.
  revert l i. induction p as [|j p IHp].
  { intros l i. symmetry. apply omap_all_id, Forall_true. by intros [q t]. }
  intros l. revert j. induction l as [|c l IHl]; intros j i.
  { by rewrite extract_nil. }
  rewrite (descendants_from_cons i c l), fmap_cons, fmap_app.
  rewrite omap_cons', omap_app. cbn [offset].
  rewrite shallow_entry_pair, relocate_entry_pair.
  destruct j as [|j].
  - rewrite Nat.add_0_r. destruct p as [|k p].
    + change (extract [0%nat] (c :: l)) with l.
      rewrite relocate_inside. cbn [fmap option_fmap option_map option_list app].
      rewrite omap_all_None, shift_back; [done|].
      eapply Forall_impl; [apply child_entries|].
      intros [q t] (q' & Hq & _). simpl in Hq. subst q.
      by rewrite relocate_entry_pair, relocate_inside.
    + change (extract (0%nat :: k :: p) (c :: l))
        with ((match c with
               | Str _ _ => c
               | Tag n a cs => Tag n a (extract (k :: p) cs)
               end) :: l).
      rewrite descendants_from_cons, fmap_cons, fmap_app.
      rewrite contents_alter, shallow_entry_pair, shallow_alter.
      rewrite relocate_ancestor by done.
      cbn [fmap option_fmap option_map option_list app]. f_equal. f_equal.
      * rewrite !shallow_under, relocate_under;
          [|done|apply shallow_paths_nonempty].
        f_equal. unfold descendants. rewrite IHp. by rewrite offset_0.
      * symmetry. apply omap_all_id.
        eapply Forall_impl; [apply later_entries|].
        intros [q t] (j & q' & Hq & Hj). simpl in Hq. subst q.
        rewrite relocate_entry_pair.
        rewrite relocate_elsewhere; [done | done | lia].
  - rewrite extract_S, descendants_from_cons, fmap_cons, fmap_app.
    rewrite shallow_entry_pair, relocate_before by lia.
    cbn [fmap option_fmap option_map option_list app]. f_equal. f_equal.
    + symmetry. apply omap_all_id.
      eapply Forall_impl; [apply child_entries|].
      intros [q t] (q' & Hq & _). simpl in Hq. subst q.
      by rewrite relocate_entry_pair, relocate_before by lia.
    + rewrite IHl. cbn [offset]. by replace (S i + j)%nat with (i + S j)%nat by lia.
Qed.
End DescendantsAfterExtract.

(** ** Decomposing every boilerplate element *)

Section Decompose.
Implicit Types (p q : path) (i j k : nat) (l : list node).

Lemma filter_shallow (m : node → bool) (X : list (path * node)) :
  (∀ t, m (shallow t) = m t) →
  (filter (λ e, m e.2 = true) X).*1
  = (filter (λ e, m e.2 = true) (shallow_entry <$> X)).*1.
Proof.
  intros Hm. induction X as [|[q t] X IH]; [done|].
  rewrite fmap_cons, !filter_cons. cbn [shallow_entry fst snd].
  rewrite Hm. case_decide; [|done]. rewrite !fmap_cons. by f_equal.
Qed.

Lemma filter_relocate (m : node → bool) p (Y : list (path * node)) :
  (filter (λ e, m e.2 = true) (omap (relocate_entry p) Y)).*1
  = omap (relocate p) (filter (λ e, m e.2 = true) Y).*1.
Proof.
  induction Y as [|[q t] Y IH]; [done|].
  rewrite omap_cons', filter_app, fmap_app, IH.
  rewrite relocate_entry_pair.
  destruct (m t) eqn:Hm.
  - rewrite (filter_cons_True _ (q, t)) by done. rewrite fmap_cons, omap_cons'.
    f_equal. cbn [fst]. destruct (relocate p q) as [q'|]; [|done].
    cbn [fmap option_fmap option_map]. unfold option_list, option_rect.
    by rewrite filter_cons_True by done.
  - rewrite (filter_cons_False _ (q, t)) by (simpl; congruence).
    destruct (relocate p q) as [q'|]; [|done].
    cbn [fmap option_fmap option_map]. unfold option_list, option_rect.
    by rewrite filter_cons_False by (simpl; congruence).
Qed.

Lemma find_all_extract (m : node → bool) p l :
  (∀ t, m (shallow t) = m t) →
  (find_all m (extract p l)).*1 = omap (relocate p) (find_all m l).*1.
Proof.
  intros Hm. unfold find_all, descendants.
  rewrite filter_shallow, descendants_extract, offset_0 by done.
  by rewrite filter_relocate, <-filter_shallow.
Qed.

Lemma is_boilerplate_shallow t : is_boilerplate (shallow t) = is_boilerplate t.
Proof. by destruct t. Qed.

Lemma prune_cons c l :
  prune (c :: l)
  = (if is_boilerplate c then [] else [prune_node c]) ++ prune l.
Proof. unfold prune. csimpl. by destruct (is_boilerplate c). Qed.

Lemma prune_node_Tag n a cs : prune_node (Tag n a cs) = Tag n a (prune cs).
Proof. reflexivity. Qed.

Lemma prune_extract p l i e :
  e ∈ descendants_from i l → e.1 = offset i p →
  is_boilerplate e.2 = true →
  prune (extract p l) = prune l.
Proof.
  revert l i e. induction p as [|j p IHp]; [done|].
  intros l. revert j. induction l as [|c l IHl]; intros j i e He Hp Hb.
  { by apply elem_of_nil in He. }
  rewrite descendants_from_cons in He. cbn [offset] in Hp.
  apply elem_of_cons in He as [->|[He|He]%elem_of_app].
  - simpl in Hp, Hb. assert (j = 0%nat) as -> by (injection Hp; lia).
    injection Hp as _ <-. change (extract [0%nat] (c :: l)) with l.
    by rewrite prune_cons, Hb.
  - apply list_elem_of_fmap in He as ([q t] & -> & He).
    simpl in Hp, Hb. assert (j = 0%nat) as -> by (injection Hp; lia).
    injection Hp as _ ->.
    pose proof (descendants_nonempty_path _ _ _ He) as Hne.
    destruct p as [|k p]; [done|].
    destruct c as [cls s|n a cs]; [by apply elem_of_nil in He|].
    change (extract (0%nat :: k :: p) (Tag n a cs :: l))
      with (Tag n a (extract (k :: p) cs) :: l).
    rewrite !prune_cons, !prune_node_Tag.
    rewrite (IHp cs 0%nat (k :: p, t)); (done || by rewrite ?offset_0).
  - pose proof (descendants_from_heads (S i) l) as Hh.
    rewrite Forall_forall in Hh. destruct (Hh _ He) as (j' & q & Hq & Hj).
    rewrite Hq in Hp. destruct j as [|j]; [injection Hp; lia|].
    rewrite extract_S, !prune_cons. f_equal.
    apply (IHl j (S i) e); [done | | done].
    rewrite Hq, Hp. cbn [offset]. f_equal. lia.
Qed.

Lemma prune_clean_forest l :
  Forall (λ t, Forall (λ e : path * node, is_boilerplate e.2 = false)
                      (descendants_of t) → prune_node t = t) l →
  ∀ i, Forall (λ e : path * node, is_boilerplate e.2 = false)
              (descendants_from i l) →
  prune l = l.
Proof.
  induction 1 as [|c l Hc _ IH]; intros i Hd; [done|].
  simpl in Hd. apply Forall_cons in Hd as [Hb Hd].
  apply Forall_app in Hd as [Hd1 Hd2]. simpl in Hb.
  rewrite prune_cons, Hb, (IH _ Hd2), Hc; [done|].
  rewrite Forall_fmap in Hd1. by eapply Forall_impl.
Qed.

Lemma prune_clean l :
  find_all is_boilerplate l = [] → prune l = l.
Proof.
  intros Hf. apply (prune_clean_forest l) with 0%nat.
  - apply Forall_true. intros t.
    induction t as [cls s|n a cs IH] using node_ind'; [done|].
    intros Hd. rewrite prune_node_Tag. f_equal.
    by apply (prune_clean_forest cs) with 0%nat.
  - apply Forall_forall. intros e He.
    destruct (is_boilerplate e.2) eqn:Hb; [|done].
    exfalso. by eapply (filter_nil_not_elem_of _ (descendants l) e).
Qed.

Lemma omap_bind_omap {A B C} (f : A → option B) (g : B → option C)
    (X : list A) :
  omap (λ x, f x ≫= g) X = omap g (omap f X).
Proof.
  induction X as [|x X IH]; [done|]. csimpl. rewrite IH.
  destruct (f x) as [y|]; csimpl; [|done]. by destruct (g y).
Qed.

Lemma decompose_each_prune found whereis l :
  omap whereis found = (find_all is_boilerplate l).*1 →
  decompose_each found whereis l = prune l.
Proof.
  revert whereis l. induction found as [|r found IH]; intros whereis l Hf.
  - csimpl in Hf. cbn [decompose_each]. symmetry. apply prune_clean.
    by destruct (find_all is_boilerplate l).
  - simpl. rewrite omap_cons' in Hf.
    destruct (whereis r) as [p|] eqn:Hr; csimpl in Hf; [|by apply IH].
    assert (∃ t, (p, t) ∈ find_all is_boilerplate l) as [t Ht].
    { destruct (find_all is_boilerplate l) as [|[p' t] F]; [done|].
      injection Hf as -> _. exists t. apply list_elem_of_here. }
    apply list_elem_of_filter in Ht as [Hb Ht]. simpl in Hb.
    rewrite IH.
    + by apply (prune_extract p l 0%nat (p, t)); rewrite ?offset_0.
    + rewrite find_all_extract by apply is_boilerplate_shallow.
      rewrite <-Hf, omap_bind_omap, omap_cons'.
      rewrite relocate_self; [done|]. by eapply descendants_nonempty_path.
Qed.

(** Lines 56 and 57 remove exactly the subtrees rooted at boilerplate
    elements. *)
Lemma drop_boilerplate_prune sp : drop_boilerplate sp = prune sp.
Proof.
  unfold drop_boilerplate. apply decompose_each_prune.
  apply omap_all_id, Forall_true. done.
Qed.
End Decompose.

(** ** The cleaning steps together *)

Lemma clean_soup_readable_text sp : clean_soup sp = readable_text sp.
Proof.
  unfold clean_soup, readable_text.
  rewrite drop_boilerplate_prune, body_or_soup_scope_root.
  rewrite stripped_strings_fragments.
  apply normalize_whitespace_collapse.
Qed.

Lemma same_outside_boilerplate_prune l l' :
  same_outside_boilerplate l l' → prune l = prune l'.
Proof.
  induction 1 as [|t l l' Hb _ IH|t l l' Hb _ IH|cls s l l' _ IH
                 |n a cs cs' l l' _ IHcs _ IH].
  - done.
  - by rewrite prune_cons, Hb.
  - by rewrite prune_cons, Hb.
  - by rewrite !prune_cons, IH.
  - rewrite !prune_cons, !prune_node_Tag, IHcs, IH.
    by change (is_boilerplate (Tag n a cs)) with (is_boilerplate (Tag n a cs')).
Qed.

Lemma links_of_reattribute g t : links_of (reattribute_node g t) = links_of t.
Proof.
  induction t as [cls s|n a cs IH] using node_ind'; [done|].
  simpl. f_equal.
  - by repeat case_decide.
  - rewrite list_fmap_bind. by apply bind_forest_ext.
Qed.

Lemma hyperlinks_reattribute g sp : hyperlinks (reattribute g sp) = hyperlinks sp.
Proof.
  unfold hyperlinks, reattribute. rewrite list_fmap_bind.
  apply bind_forest_ext, Forall_true. intros t. apply links_of_reattribute.
Qed.

Lemma body_text_runs t b s :
  b ∈ body_elements_of t → s ∈ text_runs (tag_contents b) → s ∈ text_runs_of t.
Proof.
  induction t as [cls s'|n a cs IH] using node_ind'.
  { by intros ?%elem_of_nil. }
  simpl. intros [Hb|Hb]%elem_of_app Hs.
  - case_decide; [|by apply elem_of_nil in Hb].
    apply list_elem_of_singleton in Hb. by subst b.
  - apply list_elem_of_bind in Hb as (c & Hb & Hc).
    apply list_elem_of_bind. exists c. split; [|done].
    rewrite Forall_forall in IH. by apply IH.
Qed.

Lemma scope_root_text_runs l s :
  s ∈ text_runs (scope_root l) → s ∈ text_runs l.
Proof.
  unfold scope_root.
  destruct (l ≫= body_elements_of) as [|b bs] eqn:Hbs; simpl; [done|].
  assert (b ∈ l ≫= body_elements_of) as Hb by (rewrite Hbs; apply list_elem_of_here).
  apply list_elem_of_bind in Hb as (t & Hb & Ht). intros Hs.
  apply list_elem_of_bind. exists t. split; [|done]. by eapply body_text_runs.
Qed.

Lemma fragments_blank l :
  Forall (λ s, strip s = []) (text_runs l) → fragments l = [].
Proof.
  unfold fragments. induction 1 as [|s ss Hs _ IH]; [done|].
  rewrite fmap_cons, filter_cons_False; [done|]. rewrite Hs. by intros H.
Qed.

Lemma readable_text_blank sp : no_visible_text sp → readable_text sp = [].
Proof.
  intros Hblank. unfold readable_text. rewrite fragments_blank; [done|].
  apply Forall_forall. intros s Hs%scope_root_text_runs.
  unfold no_visible_text in Hblank. rewrite Forall_forall in Hblank.
  by apply Hblank.
Qed.

(** ** Slicing *)

Lemma slice_to_take s n : 0 <= n → slice_to s n = take (Z.to_nat n) s.
Proof.
  intros Hn. unfold slice_to, len.
  destruct (Z.ltb_spec n 0) as [|_]; [lia|].
  destruct (Z.le_ge_cases n (Z.of_nat (length s))).
  - by rewrite Z.min_l.
  - rewrite Z.min_r, Nat2Z.id by done. rewrite !take_ge; [done | lia | lia].
Qed.

Lemma len_slice_to s n : 0 <= n → len (slice_to s n) <= n.
Proof.
  intros Hn. rewrite slice_to_take by done. unfold len.
  rewrite length_take. lia.
Qed.

Lemma slice_to_slice_to s n m :
  0 <= n <= m → slice_to (slice_to s m) n = slice_to s n.
Proof.
  intros [Hn Hm]. rewrite !slice_to_take by lia.
  rewrite take_take. f_equal. lia.
Qed.

Lemma slice_to_all s n : len s <= n → slice_to s n = s.
Proof.
  intros Hn. pose proof (len_nonneg s). rewrite slice_to_take by lia.
  apply take_ge. unfold len in Hn. lia.
Qed.

(** * The properties of the specification *)

(** C7: whitespace normalisation is idempotent: normalising a string that
    normalisation produced returns it unchanged. *)
Theorem normalize_whitespace_idempotent (s : pystr) :
  normalize_whitespace (normalize_whitespace s) = normalize_whitespace s.
Proof.
  unfold normalize_whitespace at 1 2.
  rewrite split_join; [done|]. apply split_words.
Qed.

Section Claims.
Variable requests_get : pystr → result pystr.
Variable BeautifulSoup : pystr → result soup.

Lemma extract_text_parsed html sp budget :
  BeautifulSoup html = Ok sp →
  extract_text BeautifulSoup html budget
  = Ok (slice_to (readable_text sp) budget).
Proof.
  intros Hsp. unfold extract_text, _clean_body.
  rewrite Hsp. simpl. by rewrite clean_soup_readable_text.
Qed.

Lemma collect_links_parsed html sp :
  BeautifulSoup html = Ok sp →
  collect_links BeautifulSoup html = Ok (hyperlinks sp).
Proof.
  intros Hsp. unfold collect_links. rewrite Hsp. apply soup_links_hyperlinks.
Qed.

Lemma extract_text_Ok html budget s :
  extract_text BeautifulSoup html budget = Ok s →
  ∃ sp, BeautifulSoup html = Ok sp ∧ s = slice_to (clean_soup sp) budget.
Proof.
  unfold extract_text, _clean_body.
  destruct (BeautifulSoup html) as [sp|e]; simpl; [|done].
  intros [= <-]. by exists sp.
Qed.

(** C1: for every markup string and every positive budget, the string
    that text extraction returns is at most [budget] characters long. *)
Theorem extract_text_within_budget html budget s :
  0 < budget →
  extract_text BeautifulSoup html budget = Ok s → len s <= budget.
Proof.
  intros Hb (sp & _ & ->)%extract_text_Ok. apply len_slice_to. lia.
Qed.

(** C2: the text inside script, style, noscript, header, footer and nav
    elements contributes nothing to the extracted text, at whatever depth
    the element lies: two documents that differ only in the presence and
    the contents of such elements yield the same output. *)
Theorem boilerplate_contributes_nothing html html' sp sp' budget :
  BeautifulSoup html = Ok sp → BeautifulSoup html' = Ok sp' →
  same_outside_boilerplate sp sp' →
  extract_text BeautifulSoup html budget
  = extract_text BeautifulSoup html' budget.
Proof.
  intros Hsp Hsp' Hsame.
  rewrite (extract_text_parsed _ _ _ Hsp), (extract_text_parsed _ _ _ Hsp').
  unfold readable_text. by rewrite (same_outside_boilerplate_prune _ _ Hsame).
Qed.

(** C4: for positive [n <= m], extraction with budget [n] returns the
    first [n] characters of extraction with budget [m]. *)
Theorem extract_text_prefix html n m :
  0 < n → n <= m →
  extract_text BeautifulSoup html n
  = take (Z.to_nat n) <$> extract_text BeautifulSoup html m.
Proof.
  intros Hn Hm. unfold extract_text.
  destruct (_clean_body BeautifulSoup html) as [cleaned|e]; simpl; [|done].
  rewrite <-(slice_to_slice_to cleaned n m) by lia.
  by rewrite (slice_to_take _ n) by lia.
Qed.

(** C5: link collection walks the whole, unpruned tree in document order
    and returns the [href] value of each anchor that has one, as it
    stands in the tree; anchors without [href] contribute nothing. *)
Theorem collect_links_hyperlinks html :
  collect_links BeautifulSoup html = hyperlinks <$> BeautifulSoup html.
Proof.
  unfold collect_links.
  destruct (BeautifulSoup html) as [sp|e]; simpl; [|done].
  apply soup_links_hyperlinks.
Qed.

(** C6: once the markup is downloaded, either operation fails exactly
    when the parser rejects the markup, with the parser's exception;
    whenever the parser builds a tree, both return a result. *)
Theorem parse_failure_only args html :
  requests_get (url args) = Ok html →
  (∀ e, fetch_url_text requests_get BeautifulSoup args = Raise e
        ↔ BeautifulSoup html = Raise e)
  ∧ (∀ e, fetch_page_links requests_get BeautifulSoup args = Raise e
          ↔ BeautifulSoup html = Raise e)
  ∧ (∀ sp, BeautifulSoup html = Ok sp →
       ∃ text links,
         fetch_url_text requests_get BeautifulSoup args = Ok text
         ∧ fetch_page_links requests_get BeautifulSoup args = Ok links).
Proof.
  intros Hget.
  unfold fetch_url_text, fetch_page_links.
  rewrite Hget. cbn [mbind result_bind].
  unfold extract_text, _clean_body, collect_links.
  destruct (BeautifulSoup html) as [sp|e']; simpl.
  - rewrite soup_links_hyperlinks. split_and!.
    + intros e. split; intros [=].
    + intros e. split; intros [=].
    + intros ? _. eexists _, _. split; reflexivity.
  - split_and!; [| | intros sp [=]]; intros e; split; by intros [= ->].
Qed.

(** C8: a parseable document without a body element and without visible
    text yields the empty string, not an error, for every positive
    budget. *)
Theorem extract_text_blank html sp budget :
  BeautifulSoup html = Ok sp →
  no_body_element sp → no_visible_text sp → 0 < budget →
  extract_text BeautifulSoup html budget = Ok [].
Proof.
  intros Hsp _ Hblank _. rewrite (extract_text_parsed _ _ _ Hsp).
  rewrite readable_text_blank by done. unfold slice_to. by rewrite take_nil.
Qed.

(** C9: the extracted text holds no whitespace character other than the
    space, no two whitespace characters in a row, and none in front;
    slicing keeps this. *)
Theorem extract_text_single_spaced html budget s :
  0 < budget →
  extract_text BeautifulSoup html budget = Ok s → single_spaced s.
Proof.
  intros Hb (sp & _ & ->)%extract_text_Ok.
  apply spaced_ok_single_spaced. rewrite slice_to_take by lia.
  apply spaced_ok_take, spaced_ok_normalize.
Qed.

(** C10: an [href] on an element other than an anchor never contributes:
    rewriting the attributes of all other elements in any way leaves the
    collected links unchanged. *)
Theorem collect_links_anchors_only g html html' sp :
  BeautifulSoup html = Ok sp →
  BeautifulSoup html' = Ok (reattribute g sp) →
  collect_links BeautifulSoup html' = collect_links BeautifulSoup html.
Proof.
  intros Hsp Hsp'.
  rewrite (collect_links_parsed _ _ Hsp), (collect_links_parsed _ _ Hsp').
  by rewrite hyperlinks_reattribute.
Qed.
End Claims.

(** * The functions on the sample pages *)

Example article_found :
  (find_all (name_in BOILERPLATE) article_soup).*1
  = [[0; 0; 1]; [0; 1; 0]; [0; 1; 0; 0]; [0; 1; 3]]%nat.
Proof. vm_compute. reflexivity. Qed.

(** The [nav] inside the [header] is destroyed with the header; its turn in
    the loop changes nothing. *)
Example article_decomposed :
  drop_boilerplate article_soup
  = [elem "html"
       [elem "head" [elem "title" [text "T"]];
        elem "body"
          [elem "p" [text "  Hello "; elem "b" [text "big"]; text "
 world "];
           Str Comment (py "c")]]].
Proof. vm_compute. reflexivity. Qed.

Example article_text :
  fetch_url_text sample_get sample_parser
    {| url := py "http://example.org/article"; max_chars := MAX_CHARS |}
  = Ok (py "Hello big world").
Proof. vm_compute. reflexivity. Qed.

Example article_text_cut :
  fetch_url_text sample_get sample_parser
    {| url := py "http://example.org/article"; max_chars := 6 |}
  = Ok (py "Hello ").
Proof. vm_compute. reflexivity. Qed.

Example article_links :
  fetch_page_links sample_get sample_parser
    {| url := py "http://example.org/article"; max_chars := MAX_CHARS |}
  = Ok [py "/home"; py "/about"].
Proof. vm_compute. reflexivity. Qed.

Example unclosed_text :
  extract_text sample_parser unclosed_markup MAX_CHARS = Ok (py "Hello world").
Proof. vm_compute. reflexivity. Qed.

Example missing_page :
  fetch_url_text sample_get sample_parser
    {| url := py "http://example.org/nowhere"; max_chars := MAX_CHARS |}
  = Raise RequestException.
Proof. vm_compute. reflexivity. Qed.

Example repeated_links :
  collect_links sample_parser links_markup' = Ok [py "/x"; py "/x"].
Proof. vm_compute. reflexivity. Qed.

(** Comments and the strings of a [template] are not text of the page. *)
Example comment_and_template :
  clean_soup [elem "body" [text " a "; Str Comment (py "b");
                           elem "template" [Str TemplateString (py "c")];
                           Str CData (py "d")]]
  = py "a d".
Proof. vm_compute. reflexivity. Qed.

(** Without a body element the text of the whole document is read. *)
Example title_without_body :
  clean_soup [elem "title" [text "T"]; elem "p" [text "x"]] = py "T x".
Proof. vm_compute. reflexivity. Qed.

(** An empty body is still the scope. *)
Example empty_body :
  clean_soup [text "out"; elem "body" []] = [].
Proof. vm_compute. reflexivity. Qed.

Example no_break_space_is_whitespace :
  normalize_whitespace [160; 97; 9; 10; 98; 8195] = [97; 32; 98].
Proof. vm_compute. reflexivity. Qed.

(** * The theorems at the sample pages *)

Lemma extract_text_within_budget_witness :
  0 < 7
  ∧ extract_text sample_parser article_markup 7 = Ok (py "Hello b")
  ∧ len (py "Hello b") <= 7.
Proof.
  split; [lia|]. split; [vm_compute; reflexivity|].
  apply (extract_text_within_budget sample_parser article_markup 7);
    [lia | vm_compute; reflexivity].
Defined.

Lemma article_same_outside_boilerplate :
  same_outside_boilerplate article_soup bare_soup.
Proof.
  unfold article_soup, bare_soup, elem.
  apply sob_tag; [|apply sob_nil].
  apply sob_tag; [|apply sob_tag; [|apply sob_nil]].
  - apply sob_tag; [apply sob_str, sob_nil|].
    apply sob_left; [reflexivity | apply sob_nil].
  - apply sob_left; [reflexivity|].
    apply sob_tag.
    + apply sob_str, sob_tag; [apply sob_str, sob_nil|]. apply sob_str, sob_nil.
    + apply sob_str, sob_left; [reflexivity|].
      apply sob_right; [reflexivity | apply sob_nil].
Defined.

Lemma boilerplate_contributes_nothing_witness :
  sample_parser article_markup = Ok article_soup
  ∧ sample_parser bare_markup = Ok bare_soup
  ∧ same_outside_boilerplate article_soup bare_soup
  ∧ extract_text sample_parser article_markup 9
    = extract_text sample_parser bare_markup 9.
Proof.
  split; [vm_compute; reflexivity|]. split; [vm_compute; reflexivity|].
  split; [apply article_same_outside_boilerplate|].
  apply (boilerplate_contributes_nothing sample_parser article_markup
           bare_markup article_soup bare_soup 9);
    [vm_compute; reflexivity | vm_compute; reflexivity
    | apply article_same_outside_boilerplate].
Defined.

Lemma extract_text_prefix_witness :
  0 < 4 ∧ 4 <= 9
  ∧ extract_text sample_parser article_markup 4
    = take (Z.to_nat 4) <$> extract_text sample_parser article_markup 9.
Proof.
  split; [lia|]. split; [lia|].
  apply (extract_text_prefix sample_parser article_markup 4 9); lia.
Defined.

Lemma parse_failure_only_witness :
  let args := {| url := py "http://example.org/unclosed";
                 max_chars := MAX_CHARS |} in
  sample_get (url args) = Ok unclosed_markup
  ∧ (∀ e, fetch_url_text sample_get sample_parser args = Raise e
          ↔ sample_parser unclosed_markup = Raise e)
  ∧ (∀ e, fetch_page_links sample_get sample_parser args = Raise e
          ↔ sample_parser unclosed_markup = Raise e)
  ∧ (∀ sp, sample_parser unclosed_markup = Ok sp →
       ∃ text links,
         fetch_url_text sample_get sample_parser args = Ok text
         ∧ fetch_page_links sample_get sample_parser args = Ok links).
Proof.
  intros args. split; [vm_compute; reflexivity|].
  apply (parse_failure_only sample_get sample_parser args unclosed_markup).
  vm_compute; reflexivity.
Defined.

Lemma extract_text_blank_witness :
  (sample_parser (py "") = Ok []
   ∧ no_body_element [] ∧ no_visible_text [] ∧ 0 < 5
   ∧ extract_text sample_parser (py "") 5 = Ok [])
  ∧ (sample_parser blank_markup = Ok blank_soup
     ∧ no_body_element blank_soup ∧ no_visible_text blank_soup ∧ 0 < 5
     ∧ extract_text sample_parser blank_markup 5 = Ok []).
Proof.
  assert (no_visible_text blank_soup) as Hblank.
  { unfold no_visible_text. vm_compute. repeat constructor. }
  split.
  - split_and!; [vm_compute; reflexivity | reflexivity | constructor | lia |].
    apply (extract_text_blank sample_parser (py "") [] 5);
      [vm_compute; reflexivity | reflexivity | constructor | lia].
  - split_and!; [vm_compute; reflexivity | reflexivity | exact Hblank | lia |].
    apply (extract_text_blank sample_parser blank_markup blank_soup 5);
      [vm_compute; reflexivity | reflexivity | exact Hblank | lia].
Defined.

Lemma extract_text_single_spaced_witness :
  0 < 6
  ∧ extract_text sample_parser article_markup 6 = Ok (py "Hello ")
  ∧ single_spaced (py "Hello ").
Proof.
  split; [lia|]. split; [vm_compute; reflexivity|].
  apply (extract_text_single_spaced sample_parser article_markup 6);
    [lia | vm_compute; reflexivity].
Defined.

Lemma collect_links_anchors_only_witness :
  sample_parser links_markup = Ok links_soup
  ∧ sample_parser links_markup' = Ok (reattribute add_hrefs links_soup)
  ∧ collect_links sample_parser links_markup'
    = collect_links sample_parser links_markup.
Proof.
  split; [vm_compute; reflexivity|]. split; [vm_compute; reflexivity|].
  apply (collect_links_anchors_only sample_parser add_hrefs links_markup
           links_markup' links_soup); vm_compute; reflexivity.
Defined.

(** * Further properties of the source functions *)

(** ** Words *)

Lemma flush_app w l : flush w l = flush w [] ++ l.
Proof. by destruct w. Qed.

Lemma split_from_space w a b :
  split_from w (a ++ SPACE :: b) = split_from w a ++ split b.
Proof.
  revert w. induction a as [|c a IH]; intros w; simpl.
  - apply flush_app.
  - destruct (isspace c); [|apply IH].
    rewrite IH, (flush_app w (_ ++ _)), (flush_app w (split_from [] a)).
    by rewrite app_assoc.
Qed.

(** Splitting a space-joined list gives the words of its parts, in
    order. *)
Lemma split_join_parts (parts : list pystr) :
  split (join [SPACE] parts) = parts ≫= split.
Proof.
  induction parts as [|a parts IH]; [done|].
  destruct parts as [|b parts].
  - simpl. by rewrite app_nil_r.
  - rewrite join_cons2, bind_cons, <-IH. apply split_from_space.
Qed.

Lemma split_stripped_parts (runs : list pystr) :
  filter (λ s, s ≠ []) (strip <$> runs) ≫= split = runs ≫= split.
Proof.
  induction runs as [|s runs IH]; [done|].
  rewrite fmap_cons, bind_cons, <-IH, <-(split_strip s).
  destruct (decide (strip s = [])) as [E|E].
  - rewrite filter_cons_False by (intros H; by apply H). by rewrite E.
  - rewrite filter_cons_True by done. by rewrite bind_cons.
Qed.

Lemma normalize_whitespace_fixed s :
  normalize_whitespace (normalize_whitespace s) = normalize_whitespace s.
Proof.
  unfold normalize_whitespace at 1 2.
  rewrite split_join; [done|]. apply split_words.
Qed.

Lemma lstrip_clean x :
  (∀ c, head x = Some c → isspace c = false) → lstrip x = x.
Proof.
  destruct x as [|c x]; [done|]. intros H. simpl. by rewrite (H c).
Qed.

Lemma rstrip_clean x :
  (∀ c, last x = Some c → isspace c = false) → rstrip x = x.
Proof.
  intros H. unfold rstrip. rewrite lstrip_clean.
  - apply reverse_involutive.
  - intros c. rewrite head_reverse. apply H.
Qed.

Lemma strip_normalize s :
  strip (normalize_whitespace s) = normalize_whitespace s.
Proof.
  rewrite normalize_whitespace_collapse.
  destruct (strip_collapse_normal s) as [Hok Hlast].
  apply spaced_ok_sound in Hok as (_ & _ & Hhead).
  unfold strip at 1. rewrite lstrip_clean by (by apply Hhead).
  by apply rstrip_clean.
Qed.

(** ** The tree after the loop *)

Lemma gather_boilerplate_prune l :
  prune l ≫= gather (λ t, if is_boilerplate t then [t] else []) = [].
Proof.
  assert (∀ l,
    Forall (λ t, is_boilerplate t = false →
                 gather (λ t, if is_boilerplate t then [t] else [])
                        (prune_node t) = []) l →
    prune l ≫= gather (λ t, if is_boilerplate t then [t] else []) = [])
    as Hforest.
  { induction 1 as [|c cs Hc _ IH]; [done|].
    rewrite prune_cons. destruct (is_boilerplate c) eqn:Hb; [done|].
    simpl app. by rewrite bind_cons, Hc, IH. }
  apply Hforest, Forall_true. intros t.
  induction t as [cls s|n a cs IH] using node_ind'; [done|].
  intros Hb. rewrite prune_node_Tag. cbn [gather].
  change (is_boilerplate (Tag n a (prune cs))) with (is_boilerplate (Tag n a cs)).
  rewrite Hb. by apply Hforest.
Qed.

Lemma find_all_prune l : find_all is_boilerplate (prune l) = [].
Proof.
  apply (fmap_nil_inv snd). rewrite find_all_nodes.
  apply gather_boilerplate_prune.
Qed.

Lemma prune_prune l : prune (prune l) = prune l.
Proof. apply prune_clean, find_all_prune. Qed.

Lemma prune_app l1 l2 : prune (l1 ++ l2) = prune l1 ++ prune l2.
Proof. apply omap_app. Qed.

Lemma body_elements_prune l :
  l ≫= body_elements_of = [] → prune l ≫= body_elements_of = [].
Proof.
  assert (∀ l,
    Forall (λ t, body_elements_of t = [] →
                 body_elements_of (prune_node t) = []) l →
    l ≫= body_elements_of = [] → prune l ≫= body_elements_of = [])
    as Hforest.
  { induction 1 as [|c cs Hc _ IH]; [done|].
    rewrite bind_cons, prune_cons. intros [H1 H2]%app_eq_nil.
    destruct (is_boilerplate c); [by apply IH|].
    simpl app. by rewrite bind_cons, Hc, IH. }
  apply Hforest, Forall_true. intros t.
  induction t as [cls s|n a cs IH] using node_ind'; [done|].
  rewrite prune_node_Tag. simpl. intros [H1 H2]%app_eq_nil.
  case_decide; [done|]. by apply Hforest.
Qed.

(** ** Strings that are not text *)

Lemma text_only_cons c l :
  text_only (c :: l)
  = option_list (keep_text c text_only_node) ++ text_only l.
Proof.
  unfold text_only. csimpl. by destruct (keep_text c text_only_node).
Qed.

Lemma text_only_node_Tag n a cs :
  text_only_node (Tag n a cs) = Tag n a (text_only cs).
Proof. reflexivity. Qed.

Lemma prune_text_only l : prune (text_only l) = text_only (prune l).
Proof.
  assert (∀ l,
    Forall (λ t, prune_node (text_only_node t)
                 = text_only_node (prune_node t)) l →
    prune (text_only l) = text_only (prune l)) as Hforest.
  { induction 1 as [|c cs Hc _ IH]; [done|].
    destruct c as [cls s|n a cs'].
    - rewrite text_only_cons.
      assert (prune (Str cls s :: cs) = Str cls s :: prune cs) as ->
        by (by rewrite prune_cons).
      rewrite text_only_cons. simpl keep_text.
      destruct (is_text_node cls); simpl option_list; simpl app; [|done].
      by rewrite prune_cons, IH.
    - rewrite text_only_cons.
      change (option_list (keep_text (Tag n a cs') text_only_node) ++ ?l)
        with (text_only_node (Tag n a cs') :: l).
      rewrite !prune_cons, IH, Hc.
      change (is_boilerplate (text_only_node (Tag n a cs')))
        with (is_boilerplate (Tag n a cs')).
      destruct (is_boilerplate (Tag n a cs')); simpl app; [done|].
      by rewrite text_only_cons. }
  apply Hforest, Forall_true. intros t.
  induction t as [cls s|n a cs IH] using node_ind'; [done|].
  rewrite text_only_node_Tag, !prune_node_Tag, text_only_node_Tag.
  f_equal. by apply Hforest.
Qed.

Lemma body_elements_text_only l :
  text_only l ≫= body_elements_of
  = text_only_node <$> (l ≫= body_elements_of).
Proof.
  assert (∀ l,
    Forall (λ t, body_elements_of (text_only_node t)
                 = text_only_node <$> body_elements_of t) l →
    text_only l ≫= body_elements_of
    = text_only_node <$> (l ≫= body_elements_of)) as Hforest.
  { induction 1 as [|c cs Hc _ IH]; [done|].
    rewrite text_only_cons, !bind_cons, bind_app, fmap_app, IH. f_equal.
    destruct c as [cls s|n a cs'].
    - simpl keep_text. by destruct (is_text_node cls).
    - change (option_list (keep_text (Tag n a cs') text_only_node))
        with [text_only_node (Tag n a cs')].
      rewrite bind_cons. change ([] ≫= body_elements_of) with (@nil node).
      by rewrite app_nil_r, Hc. }
  apply Hforest, Forall_true. intros t.
  induction t as [cls s|n a cs IH] using node_ind'; [done|].
  rewrite text_only_node_Tag. simpl. rewrite fmap_app. f_equal.
  - by case_decide.
  - by apply Hforest.
Qed.

Lemma scope_root_text_only l :
  scope_root (text_only l) = text_only (scope_root l).
Proof.
  unfold scope_root. rewrite body_elements_text_only.
  destruct (l ≫= body_elements_of) as [|b bs]; [done|].
  simpl. by destruct b.
Qed.

Lemma text_runs_text_only l : text_runs (text_only l) = text_runs l.
Proof.
  assert (∀ l,
    Forall (λ t, text_runs_of (text_only_node t) = text_runs_of t) l →
    text_runs (text_only l) = text_runs l) as Hforest.
  { unfold text_runs. induction 1 as [|c cs Hc _ IH]; [done|].
    rewrite text_only_cons, bind_app, bind_cons, IH. f_equal.
    destruct c as [cls s|n a cs'].
    - simpl keep_text. destruct (is_text_node cls) eqn:E; simpl; by rewrite E.
    - change (option_list (keep_text (Tag n a cs') text_only_node))
        with [text_only_node (Tag n a cs')].
      rewrite bind_cons. change ([] ≫= text_runs_of) with (@nil pystr).
      by rewrite app_nil_r, Hc. }
  apply Hforest, Forall_true. intros t.
  induction t as [cls s|n a cs IH] using node_ind'; [done|].
  rewrite text_only_node_Tag. simpl. by apply Hforest.
Qed.

(** ** The decompose loop *)

(** X1: after lines 56 and 57 no script, style, noscript, header, footer
    or nav element is left anywhere in the tree. *)
Theorem drop_boilerplate_complete (sp : soup) :
  find_all (name_in BOILERPLATE) (drop_boilerplate sp) = [].
Proof. rewrite drop_boilerplate_prune. apply find_all_prune. Qed.

(** X2: running the loop on a tree it has already cleaned changes
    nothing. *)
Theorem drop_boilerplate_idempotent (sp : soup) :
  drop_boilerplate (drop_boilerplate sp) = drop_boilerplate sp.
Proof. rewrite !drop_boilerplate_prune. apply prune_prune. Qed.

(** ** The cleaned text *)

Lemma clean_soup_split (sp : soup) :
  split (clean_soup sp) = text_runs (scope_root (prune sp)) ≫= split.
Proof.
  unfold clean_soup.
  rewrite split_join by apply split_words.
  rewrite drop_boilerplate_prune, body_or_soup_scope_root.
  rewrite stripped_strings_fragments, split_join_parts.
  apply split_stripped_parts.
Qed.

(** X3: the words of the cleaned text are the words of the text nodes in
    scope, in document order: none is lost, and words of different text
    nodes are never run together. *)
Theorem clean_soup_words (sp : soup) :
  split (clean_soup sp) = text_runs (scope_root (prune sp)) ≫= split.
Proof. apply clean_soup_split. Qed.

Lemma split_from_nil w s :
  split_from w s = [] → w = [] ∧ Forall (λ c, isspace c = true) s.
Proof.
  revert w. induction s as [|c s IH]; intros w; simpl.
  - by destruct w.
  - destruct (isspace c) eqn:Hc.
    + destruct w; [|done]. simpl. intros [_ Hs]%IH. split; [done|].
      by constructor.
    + intros [Hw _]%IH. by destruct w.
Qed.

Lemma lstrip_blank s : Forall (λ c, isspace c = true) s → lstrip s = [].
Proof. induction 1 as [|c s Hc _ IH]; [done|]. simpl. by rewrite Hc. Qed.

Lemma split_nil_strip s : split s = [] ↔ strip s = [].
Proof.
  split.
  - intros [_ Hs]%split_from_nil. unfold strip. by rewrite lstrip_blank.
  - intros Hs. by rewrite <-split_strip, Hs.
Qed.

Lemma bind_nil_Forall {A B} (f : A → list B) (l : list A) :
  l ≫= f = [] ↔ Forall (λ x, f x = []) l.
Proof.
  induction l as [|x l IH]; [by split; [constructor|]|].
  rewrite bind_cons, Forall_cons, <-IH. split.
  - by intros [? ?]%app_eq_nil.
  - intros [-> ->]. done.
Qed.

(** X4: the cleaned text is empty exactly when every text node in scope is
    blank. *)
Theorem clean_soup_empty_iff (sp : soup) :
  clean_soup sp = []
  ↔ Forall (λ s, strip s = []) (text_runs (scope_root (prune sp))).
Proof.
  split.
  - intros Hempty.
    assert (split (clean_soup sp) = []) as Hsplit by (by rewrite Hempty).
    rewrite clean_soup_split in Hsplit. apply bind_nil_Forall in Hsplit.
    eapply Forall_impl; [exact Hsplit|]. intros s. apply split_nil_strip.
  - intros Hblank. rewrite clean_soup_readable_text. unfold readable_text.
    by rewrite fragments_blank.
Qed.

(** X6: comments, declarations, doctypes, processing instructions and
    the strings of script, style, template and ruby containers never
    reach the output: the document without them cleans to the same
    text. *)
Theorem clean_soup_text_only (sp : soup) :
  clean_soup (text_only sp) = clean_soup sp.
Proof.
  rewrite !clean_soup_readable_text. unfold readable_text, fragments.
  by rewrite prune_text_only, scope_root_text_only, text_runs_text_only.
Qed.

(** X8: a document that is one piece of text without any tag is returned
    with its whitespace normalised. *)
Theorem clean_soup_plain_text (s : pystr) :
  clean_soup [Str NavigableString s] = normalize_whitespace s.
Proof.
  rewrite clean_soup_readable_text. unfold readable_text.
  change (fragments (scope_root (prune [Str NavigableString s])))
    with (filter (λ s, s ≠ []) [strip s]).
  rewrite <-normalize_whitespace_collapse. unfold normalize_whitespace.
  rewrite <-(split_strip s).
  destruct (decide (strip s = [])) as [E|E].
  - rewrite filter_cons_False by (intros H; by apply H). by rewrite E.
  - by rewrite filter_cons_True by done.
Qed.

(** ** Links *)

(** X12: the links of a document made of two parts are the links of the
    first part followed by those of the second. *)
Theorem soup_links_app (l1 l2 : soup) v1 v2 :
  soup_links l1 = Ok v1 → soup_links l2 = Ok v2 →
  soup_links (l1 ++ l2) = Ok (v1 ++ v2).
Proof.
  rewrite !soup_links_hyperlinks. intros [= <-] [= <-].
  unfold hyperlinks. by rewrite bind_app.
Qed.

Section Tools_properties.
Variable requests_get : pystr → result pystr.
Variable BeautifulSoup : pystr → result soup.

(** X10: a budget that the cleaned text fits in returns it whole. *)
Theorem extract_text_fits html t budget :
  _clean_body BeautifulSoup html = Ok t → len t <= budget →
  extract_text BeautifulSoup html budget = Ok t.
Proof.
  intros Ht Hfit. unfold extract_text. rewrite Ht. simpl.
  by rewrite slice_to_all.
Qed.

(** X11: for a budget that is not negative the returned text is a prefix
    of the cleaned text and has as many characters as the budget or as
    the cleaned text, whichever is less. *)
Theorem extract_text_length html t budget :
  _clean_body BeautifulSoup html = Ok t → 0 <= budget →
  ∃ s, extract_text BeautifulSoup html budget = Ok s
       ∧ s `prefix_of` t ∧ len s = Z.min budget (len t).
Proof.
  intros Ht Hb. unfold extract_text. rewrite Ht. simpl.
  eexists. split; [reflexivity|].
  rewrite slice_to_take by done. split.
  - exists (drop (Z.to_nat budget) t). by rewrite take_drop.
  - unfold len. rewrite length_take. lia.
Qed.

(** X9: the text [_clean_body] returns is in normal form: normalising it
    again or stripping it changes nothing. *)
Theorem clean_body_normal_form html t :
  _clean_body BeautifulSoup html = Ok t →
  normalize_whitespace t = t ∧ strip t = t.
Proof.
  unfold _clean_body. destruct (BeautifulSoup html) as [sp|e]; [|done].
  intros [= <-]. unfold clean_soup. split.
  - apply normalize_whitespace_fixed.
  - apply strip_normalize.
Qed.

(** X13: either tool raises only what the download or the parser raised:
    nothing else in them can fail, and a failed download is not
    parsed. *)
Theorem tools_raise_only_upstream args e :
  let upstream :=
    requests_get (url args) = Raise e
    ∨ ∃ html, requests_get (url args) = Ok html
              ∧ BeautifulSoup html = Raise e in
  (fetch_url_text requests_get BeautifulSoup args = Raise e ↔ upstream)
  ∧ (fetch_page_links requests_get BeautifulSoup args = Raise e ↔ upstream).
Proof.
  unfold fetch_url_text, fetch_page_links, extract_text, _clean_body,
    collect_links.
  destruct (requests_get (url args)) as [html|e1]; simpl.
  - destruct (BeautifulSoup html) as [sp|e2] eqn:Hsp; simpl.
    + rewrite soup_links_hyperlinks.
      split; (split; [done|]); intros [[=]|(? & [= <-] & H)]; congruence.
    + split; (split; [intros [= ->]; eauto|]);
        intros [[=]|(? & [= <-] & H)]; congruence.
  - split; (split; [intros [= ->]; by left|]);
      intros [[= ->]|(? & [=] & _)]; done.
Qed.

(** X14: a validated argument has a positive budget, so the text returned
    for it is never longer than its [max_chars]. *)
Theorem validated_budget HttpUrl given_url given_max args s :
  UrlArg_validate HttpUrl given_url given_max = Valid args →
  fetch_url_text requests_get BeautifulSoup args = Ok s →
  0 < max_chars args ∧ len s <= max_chars args.
Proof.
  intros Hv Hs.
  assert (0 < max_chars args) as Hpos.
  { unfold UrlArg_validate in Hv. destruct (HttpUrl given_url) as [u|];
      destruct given_max as [n|]; simpl in Hv.
    - destruct (Z.ltb_spec 0 n); [|done]. by injection Hv as <-.
    - injection Hv as <-. simpl. unfold MAX_CHARS. lia.
    - by destruct (0 <? n).
    - done. }
  split; [done|]. unfold fetch_url_text in Hs.
  destruct (requests_get (url args)) as [html|]; [|done]. simpl in Hs.
  apply extract_text_Ok in Hs as (sp & _ & ->). apply len_slice_to. lia.
Qed.

(** X15: when [max_chars] is left out, the text is cut at 40000
    characters. *)
Theorem default_budget HttpUrl given_url args s :
  UrlArg_validate HttpUrl given_url None = Valid args →
  fetch_url_text requests_get BeautifulSoup args = Ok s →
  max_chars args = 40000 ∧ len s <= 40000.
Proof.
  intros Hv Hs.
  assert (max_chars args = 40000) as Hmax.
  { unfold UrlArg_validate in Hv. destruct (HttpUrl given_url); [|done].
    by injection Hv as <-. }
  split; [done|]. unfold fetch_url_text in Hs.
  destruct (requests_get (url args)) as [html|]; [|done]. simpl in Hs.
  apply extract_text_Ok in Hs as (sp & _ & ->).
  rewrite Hmax. by apply len_slice_to.
Qed.
End Tools_properties.

(** ** Element names and attributes *)

Section Relabel.
Variable f : pystr → gmap pystr pystr → pystr * gmap pystr pystr.
Hypothesis f_boilerplate : ∀ n a, (f n a).1 ∈ BOILERPLATE ↔ n ∈ BOILERPLATE.
Hypothesis f_body : ∀ n a, (f n a).1 = py "body" ↔ n = py "body".

Lemma is_boilerplate_relabel t :
  is_boilerplate (relabel_node f t) = is_boilerplate t.
Proof. destruct t as [cls s|n a cs]; [done|]. by apply bool_decide_ext. Qed.

Lemma prune_relabel l : prune (relabel f l) = relabel f (prune l).
Proof.
  assert (∀ l,
    Forall (λ t, prune_node (relabel_node f t)
                 = relabel_node f (prune_node t)) l →
    prune (relabel f l) = relabel f (prune l)) as Hforest.
  { unfold relabel. induction 1 as [|c cs Hc _ IH]; [done|].
    rewrite fmap_cons, !prune_cons, is_boilerplate_relabel, IH, Hc.
    by destruct (is_boilerplate c). }
  apply Hforest, Forall_true. intros t.
  induction t as [cls s|n a cs IH] using node_ind'; [done|].
  cbn [relabel_node]. rewrite !prune_node_Tag. cbn [relabel_node].
  f_equal. by apply Hforest.
Qed.

Lemma body_elements_relabel l :
  relabel f l ≫= body_elements_of
  = relabel_node f <$> (l ≫= body_elements_of).
Proof.
  assert (∀ l,
    Forall (λ t, body_elements_of (relabel_node f t)
                 = relabel_node f <$> body_elements_of t) l →
    relabel f l ≫= body_elements_of
    = relabel_node f <$> (l ≫= body_elements_of)) as Hforest.
  { unfold relabel. induction 1 as [|c cs Hc _ IH]; [done|].
    by rewrite fmap_cons, !bind_cons, fmap_app, IH, Hc. }
  apply Hforest, Forall_true. intros t.
  induction t as [cls s|n a cs IH] using node_ind'; [done|].
  cbn [relabel_node body_elements_of]. rewrite fmap_app. f_equal.
  - destruct (decide (n = py "body")) as [Hn|Hn].
    + by rewrite decide_True by (by apply f_body).
    + by rewrite decide_False by (by rewrite f_body).
  - by apply Hforest.
Qed.

Lemma scope_root_relabel l : scope_root (relabel f l) = relabel f (scope_root l).
Proof.
  unfold scope_root. rewrite body_elements_relabel.
  destruct (l ≫= body_elements_of) as [|b bs]; [done|].
  simpl. by destruct b.
Qed.

Lemma text_runs_relabel l : text_runs (relabel f l) = text_runs l.
Proof.
  assert (∀ l,
    Forall (λ t, text_runs_of (relabel_node f t) = text_runs_of t) l →
    text_runs (relabel f l) = text_runs l) as Hforest.
  { unfold text_runs, relabel. induction 1 as [|c cs Hc _ IH]; [done|].
    by rewrite fmap_cons, !bind_cons, IH, Hc. }
  apply Hforest, Forall_true. intros t.
  induction t as [cls s|n a cs IH] using node_ind'; [done|].
  cbn [relabel_node text_runs_of]. by apply Hforest.
Qed.

Lemma clean_soup_relabel (sp : soup) :
  clean_soup (relabel f sp) = clean_soup sp.
Proof.
  rewrite !clean_soup_readable_text. unfold readable_text, fragments.
  by rewrite prune_relabel, scope_root_relabel, text_runs_relabel.
Qed.
End Relabel.

(** ** The further properties at sample pages *)

(** A word that is split over two text nodes comes out as two words. *)
Example word_across_elements :
  clean_soup [elem "p" [text "Hel"; elem "b" [text "lo"]]] = py "Hel lo".
Proof. vm_compute. reflexivity. Qed.

Example rejected_budget :
  UrlArg_validate sample_HttpUrl (py "ftp://example.org") (Some 0)
  = ValidationError [py "url"; py "max_chars"].
Proof. vm_compute. reflexivity. Qed.

Lemma hide_all_boilerplate n a :
  (hide_all n a).1 ∈ BOILERPLATE ↔ n ∈ BOILERPLATE.
Proof.
  unfold hide_all. simpl. case_decide as Hn; [|done]. subst n.
  split; intros H; exfalso; revert H.
  - apply (bool_decide_eq_false_1 (py "div" ∈ BOILERPLATE)).
    vm_compute. reflexivity.
  - apply (bool_decide_eq_false_1 (py "p" ∈ BOILERPLATE)).
    vm_compute. reflexivity.
Qed.

Lemma hide_all_body n a : (hide_all n a).1 = py "body" ↔ n = py "body".
Proof.
  unfold hide_all. simpl. case_decide as Hn; [|done]. subst n.
  split; intros H; vm_compute in H; discriminate.
Qed.

Lemma clean_body_normal_form_witness :
  _clean_body sample_parser article_markup = Ok (py "Hello big world")
  ∧ normalize_whitespace (py "Hello big world") = py "Hello big world"
  ∧ strip (py "Hello big world") = py "Hello big world".
Proof.
  split; [vm_compute; reflexivity|].
  apply (clean_body_normal_form sample_parser article_markup).
  vm_compute; reflexivity.
Defined.

Lemma extract_text_fits_witness :
  _clean_body sample_parser article_markup = Ok (py "Hello big world")
  ∧ len (py "Hello big world") <= 15
  ∧ extract_text sample_parser article_markup 15 = Ok (py "Hello big world").
Proof.
  split; [vm_compute; reflexivity|]. split; [vm_compute; discriminate|].
  apply (extract_text_fits sample_parser article_markup);
    [vm_compute; reflexivity | vm_compute; discriminate].
Defined.

Lemma extract_text_length_witness :
  _clean_body sample_parser article_markup = Ok (py "Hello big world")
  ∧ 0 <= 7
  ∧ ∃ s, extract_text sample_parser article_markup 7 = Ok s
         ∧ s `prefix_of` py "Hello big world"
         ∧ len s = Z.min 7 (len (py "Hello big world")).
Proof.
  split; [vm_compute; reflexivity|]. split; [lia|].
  apply (extract_text_length sample_parser article_markup);
    [vm_compute; reflexivity | lia].
Defined.

Lemma soup_links_app_witness :
  soup_links links_soup = Ok [py "/x"; py "/x"]
  ∧ soup_links article_soup = Ok [py "/home"; py "/about"]
  ∧ soup_links (links_soup ++ article_soup)
    = Ok ([py "/x"; py "/x"] ++ [py "/home"; py "/about"]).
Proof.
  split; [vm_compute; reflexivity|]. split; [vm_compute; reflexivity|].
  apply (soup_links_app links_soup article_soup); vm_compute; reflexivity.
Defined.

Lemma validated_budget_witness :
  let args := {| url := py "http://example.org/article"; max_chars := 5 |} in
  UrlArg_validate sample_HttpUrl (py "http://example.org/article") (Some 5)
  = Valid args
  ∧ fetch_url_text sample_get sample_parser args = Ok (py "Hello")
  ∧ 0 < max_chars args ∧ len (py "Hello") <= max_chars args.
Proof.
  intros args. split; [vm_compute; reflexivity|].
  split; [vm_compute; reflexivity|].
  apply (validated_budget sample_get sample_parser sample_HttpUrl
           (py "http://example.org/article") (Some 5) args (py "Hello"));
    vm_compute; reflexivity.
Defined.

Lemma default_budget_witness :
  let args := {| url := py "http://example.org/article";
                 max_chars := MAX_CHARS |} in
  UrlArg_validate sample_HttpUrl (py "http://example.org/article") None
  = Valid args
  ∧ fetch_url_text sample_get sample_parser args = Ok (py "Hello big world")
  ∧ max_chars args = 40000 ∧ len (py "Hello big world") <= 40000.
Proof.
  intros args. split; [vm_compute; reflexivity|].
  split; [vm_compute; reflexivity|].
  apply (default_budget sample_get sample_parser sample_HttpUrl
           (py "http://example.org/article") args (py "Hello big world"));
    vm_compute; reflexivity.
Defined.

(** ** The specification's primitives against Python's *)

Lemma whitespace_isspace c : whitespace c = isspace c.
Proof.
  unfold whitespace. destruct (isspace c) eqn:E.
  - apply bool_decide_eq_true. unfold isspace in E.
    rewrite !orb_true_iff, !andb_true_iff, !Z.leb_le, !Z.eqb_eq in E.
    assert (c = 9 ∨ c = 10 ∨ c = 11 ∨ c = 12 ∨ c = 13 ∨ c = 28 ∨ c = 29
            ∨ c = 30 ∨ c = 31 ∨ c = 32 ∨ c = 133 ∨ c = 160 ∨ c = 5760
            ∨ c = 8192 ∨ c = 8193 ∨ c = 8194 ∨ c = 8195 ∨ c = 8196
            ∨ c = 8197 ∨ c = 8198 ∨ c = 8199 ∨ c = 8200 ∨ c = 8201
            ∨ c = 8202 ∨ c = 8232 ∨ c = 8233 ∨ c = 8239 ∨ c = 8287
            ∨ c = 12288) as H by lia.
    repeat (destruct H as [->|H];
            [apply (bool_decide_unpack _); vm_compute; exact I|]).
    subst c. apply (bool_decide_unpack _). vm_compute. exact I.
  - apply bool_decide_eq_false. intros Hin. unfold WHITESPACE in Hin.
    repeat (apply elem_of_cons in Hin as [->|Hin];
            [vm_compute in E; discriminate|]).
    by apply elem_of_nil in Hin.
Qed.

Lemma trim_start_lstrip s : trim_start s = lstrip s.
Proof.
  induction s as [|c s IH]; [done|]. simpl.
  rewrite whitespace_isspace, IH. done.
Qed.

Lemma trim_strip s : trim s = strip s.
Proof. unfold trim, strip, rstrip. by rewrite !trim_start_lstrip. Qed.

Lemma squeeze_collapse_ws b s : squeeze b s = collapse_ws b s.
Proof.
  revert b. induction s as [|c s IH]; intros b; [done|]. simpl.
  by rewrite whitespace_isspace, !IH.
Qed.

Lemma spaced_join parts : spaced parts = join [SPACE] parts.
Proof.
  destruct parts as [|w ws]; [done|]. simpl spaced.
  revert w. induction ws as [|v ws IH]; intros w.
  - simpl. apply app_nil_r.
  - rewrite join_cons2, <-IH. reflexivity.
Qed.

Lemma ordinary_text_readable_text l : ordinary_text l = readable_text l.
Proof.
  unfold ordinary_text, described_text, readable_text, fragments.
  rewrite trim_strip, squeeze_collapse_ws, spaced_join.
  do 4 f_equal. apply list_fmap_ext. intros _ s _. apply trim_strip.
Qed.

(** ** The body in its surroundings *)

Lemma body_at_scope l a cs :
  body_at l a cs →
  ∃ b rest, prune l ≫= body_elements_of = b :: rest
            ∧ tag_contents b = prune cs.
Proof.
  induction 1 as [pre a cs post Hpre
                 |pre n a' inner post a cs Hpre Hn Hb _ (b & rest & IH & Hc)].
  - exists (Tag (py "body") a (prune cs)). eexists. split; [|done].
    rewrite prune_app, bind_app, Hpre, prune_cons.
    assert (is_boilerplate (Tag (py "body") a cs) = false) as ->
      by (vm_compute; reflexivity).
    rewrite prune_node_Tag, (bind_app _ [_]), bind_cons.
    cbn [body_elements_of]. rewrite decide_True by done. reflexivity.
  - exists b. eexists. split; [|done].
    rewrite prune_app, bind_app, Hpre, prune_cons.
    assert (is_boilerplate (Tag n a' inner) = false) as ->
      by (by apply bool_decide_eq_false).
    rewrite prune_node_Tag, (bind_app _ [_]), bind_cons.
    cbn [body_elements_of]. rewrite decide_False by done.
    rewrite IH. reflexivity.
Qed.

Lemma body_at_readable_text l a cs :
  body_at l a cs →
  readable_text l
  = strip (collapse_ws false (join [SPACE] (fragments (prune cs)))).
Proof.
  intros (b & rest & Hb & Hc)%body_at_scope.
  unfold readable_text, scope_root. by rewrite Hb, <-Hc.
Qed.

(** ** The cleaning step as the specification describes it *)

Section Described.
Variable BeautifulSoup : pystr → result soup.

(** C3: the cleaning step scopes to the first body element of the
    pruned document if there is one and to the document root
    otherwise, collects in document order the non-empty trimmed text runs
    of the ordinary text nodes below it (plain strings and CDATA sections,
    whatever element they are in; not the strings of [rt], [rp] and
    [template] elements), puts one space between them, collapses each
    whitespace run to one space and trims the ends. *)
Theorem clean_body_ordinary_text html :
  _clean_body BeautifulSoup html = ordinary_text <$> BeautifulSoup html.
Proof.
  unfold _clean_body.
  destruct (BeautifulSoup html) as [sp|e]; simpl; [|done].
  by rewrite clean_soup_readable_text, ordinary_text_readable_text.
Qed.

(** X7: two pages whose parsed trees differ only in the names of elements
    that are neither boilerplate nor a body and in attributes (class,
    hidden, style, ...) yield the same text. *)
Theorem extract_text_relabel f html html' sp budget :
  (∀ n a, (f n a).1 ∈ BOILERPLATE ↔ n ∈ BOILERPLATE) →
  (∀ n a, (f n a).1 = py "body" ↔ n = py "body") →
  BeautifulSoup html = Ok sp →
  BeautifulSoup html' = Ok (relabel f sp) →
  extract_text BeautifulSoup html' budget
  = extract_text BeautifulSoup html budget.
Proof.
  intros Hbp Hbody Hsp Hsp'. unfold extract_text, _clean_body.
  rewrite Hsp, Hsp'. simpl. by rewrite clean_soup_relabel.
Qed.
End Described.

(** X5: when a body element lies outside every boilerplate element, at
    whatever depth, the text is that of the first such body alone: what
    stands before it, after it and around it is not read. *)
Theorem clean_soup_body_only (sp : soup) a cs :
  body_at sp a cs →
  clean_soup sp = clean_soup [Tag (py "body") a cs].
Proof.
  intros Hbody. rewrite !clean_soup_readable_text.
  rewrite (body_at_readable_text sp a cs Hbody).
  symmetry. apply (body_at_readable_text [Tag (py "body") a cs] a cs).
  by apply (body_here [] a cs []).
Qed.

(** * These statements at sample pages *)

Example ruby_text :
  _clean_body page_parser ruby_markup = Ok (py "kanji").
Proof. vm_compute. reflexivity. Qed.

Example hidden_text_is_read :
  extract_text page_parser hidden_markup MAX_CHARS = Ok (py "Hello big world").
Proof. vm_compute. reflexivity. Qed.

(** C3: not every remaining text run is collected.  The annotation of a
    ruby element is text of the page under its body, and the cleaning
    step leaves it out. *)
Lemma all_remaining_text_refuted :
  page_parser ruby_markup = Ok ruby_soup
  ∧ all_remaining_text ruby_soup = py "kanji kan"
  ∧ _clean_body page_parser ruby_markup
    ≠ all_remaining_text <$> page_parser ruby_markup.
Proof.
  split; [vm_compute; reflexivity|]. split; [vm_compute; reflexivity|].
  vm_compute. discriminate.
Qed.

(** C6: failure does not follow the line between HTML and other input.
    Ordinary markup with a stray marked section is rejected by the parser,
    so both tools raise, and a binary blob is parsed as text, so both
    tools return. *)
Lemma fails_only_on_blobs_refuted :
  ¬ fails_only_on_blobs page_get page_parser
  ∧ (non_html_blob stray_section_markup = false
     ∧ fetch_url_text page_get page_parser
         {| url := py "http://example.org/stray"; max_chars := MAX_CHARS |}
       = Raise ParserRejectedMarkup
     ∧ fetch_page_links page_get page_parser
         {| url := py "http://example.org/stray"; max_chars := MAX_CHARS |}
       = Raise ParserRejectedMarkup)
  ∧ (non_html_blob blob_markup = true
     ∧ fetch_url_text page_get page_parser
         {| url := py "http://example.org/photo.jpg";
            max_chars := MAX_CHARS |}
       = Ok blob_markup
     ∧ fetch_page_links page_get page_parser
         {| url := py "http://example.org/photo.jpg";
            max_chars := MAX_CHARS |}
       = Ok []).
Proof.
  split; [|split; split_and!; vm_compute; reflexivity].
  intros Hclaim.
  destruct (Hclaim {| url := py "http://example.org/photo.jpg";
                      max_chars := MAX_CHARS |} blob_markup)
    as [[_ Hraise] _]; [vm_compute; reflexivity|].
  destruct Hraise as [e He]; [vm_compute; reflexivity|].
  vm_compute in He. discriminate.
Qed.

Lemma article_body_at :
  body_at article_soup ∅
    [elem "header" [elem "nav" [elem_href "a" "/home" [text "Home"]]];
     elem "p" [text "  Hello "; elem "b" [text "big"]; text "
 world "];
     Str Comment (py "c");
     elem "footer" [elem_href "a" "/about" [text "About"];
                    elem "a" [text "top"]]].
Proof.
  apply (body_below [] (py "html") ∅ _ []).
  - reflexivity.
  - vm_compute. discriminate.
  - apply (bool_decide_eq_false_1 (py "html" ∈ BOILERPLATE)).
    vm_compute. reflexivity.
  - apply (body_here [elem "head" _] ∅ _ []). vm_compute. reflexivity.
Qed.

Lemma clean_soup_body_only_witness :
  body_at article_soup ∅
    [elem "header" [elem "nav" [elem_href "a" "/home" [text "Home"]]];
     elem "p" [text "  Hello "; elem "b" [text "big"]; text "
 world "];
     Str Comment (py "c");
     elem "footer" [elem_href "a" "/about" [text "About"];
                    elem "a" [text "top"]]]
  ∧ clean_soup article_soup
    = clean_soup
        [Tag (py "body") ∅
           [elem "header" [elem "nav" [elem_href "a" "/home" [text "Home"]]];
            elem "p" [text "  Hello "; elem "b" [text "big"]; text "
 world "];
            Str Comment (py "c");
            elem "footer" [elem_href "a" "/about" [text "About"];
                           elem "a" [text "top"]]]].
Proof.
  split; [apply article_body_at|].
  apply (clean_soup_body_only article_soup ∅ _ article_body_at).
Defined.

Lemma extract_text_relabel_witness :
  (∀ n a, (hide_all n a).1 ∈ BOILERPLATE ↔ n ∈ BOILERPLATE)
  ∧ (∀ n a, (hide_all n a).1 = py "body" ↔ n = py "body")
  ∧ page_parser article_markup = Ok article_soup
  ∧ page_parser hidden_markup = Ok (relabel hide_all article_soup)
  ∧ extract_text page_parser hidden_markup 9
    = extract_text page_parser article_markup 9.
Proof.
  split; [apply hide_all_boilerplate|]. split; [apply hide_all_body|].
  split; [vm_compute; reflexivity|]. split; [vm_compute; reflexivity|].
  apply (extract_text_relabel page_parser hide_all article_markup
           hidden_markup article_soup 9 hide_all_boilerplate hide_all_body);
    vm_compute; reflexivity.
Defined.
